(** * Dead-binding removal: a shallow embedding of
    [helper_scripts/remove_unused_variables.py]

    The script reads a file, decides which names are unused and deletes
    their declarations with regular expressions.  The embedding follows
    the script function by function:

    - [Re]        the fragment of Python's [re] module the script uses
                  (a backtracking matcher, [findall], [finditer], [sub]);
    - [Edit]      the patterns of the script and its two removal loops;
    - [Ast]       the part of the [ast] tree the visitor looks at, and
                  [UnusedVariableDetector] with its four visit methods;
    - [Script]    [process_python_file] and [process_javascript_file]
                  over an explicit disk and host: I/O faults, links,
                  line ends in text mode, [print] and the outer
                  [try]/[except];
    - [Collect], [Spec], [Lines], [Files]
                  what the visitor collects, read off the tree; the
                  scopes, bindings and spans of the specification;
                  physical lines; and concrete files with their trees;
    - [Walk]      [main], over the files its two globs enumerate.

    The properties follow: the matcher on the assignment pattern, the
    scan of a file line by line, the visitor, the two processing
    functions, the claims of the specification, and [main].

    A text is a sequence of code points below 256.  [ast.parse], the
    order in which Python iterates over a set, the faults of the file
    system, what the standard output raises on a message, and whether a
    tree exceeds the recursion limit are inputs of the model. *)

From Stdlib Require Import Ascii String.
From stdpp Require Import gmap strings list fin_maps.

#[local] Set Warnings "-register-all,-clear-no-such-hyp".
#[local] Arguments String.append !_ _ / : simpl nomatch.


(* ===================================================================== *)
(** ** Text helpers *)
(* ===================================================================== *)

(** The line feed, Python's ['\n']. *)
Definition nl : ascii := "010"%char.

(** [text ls] is the file whose physical lines are [ls], each one
    terminated by a line feed. *)
Fixpoint text (ls : list string) : string :=
  match ls with
  | [] => EmptyString
  | l :: ls' => l +:+ String nl (text ls')
  end.

(** [str.startswith('_')]. *)
Definition startswith_underscore (s : string) : bool :=
  match s with
  | String c _ => Ascii.eqb c "_"
  | EmptyString => false
  end.

(* ===================================================================== *)
(** ** The regular expressions of the script *)
(* ===================================================================== *)

Module Re.

(** Character classes.  A character of the model is a code point below
    256; the patterns of the script are [str] patterns, so that the
    classes are those of Unicode on these code points. *)
Inductive cclass :=
| CSpace                 (* \s   *)
| CWord                  (* \w   *)
| CDot                   (* .    (no DOTALL: anything but a line feed) *)
| CNot (c : ascii)       (* [^c] *)
| CChar (c : ascii).     (* c    *)

(** [\s]: the code points for which [str.isspace] holds: TAB..CR,
    FS..US, the blank, NEL (133) and the no-break space (160). *)
Definition is_space (c : ascii) : bool :=
  let n := nat_of_ascii c in
  ((9 <=? n) && (n <=? 13)) || ((28 <=? n) && (n <=? 32))
  || (n =? 133) || (n =? 160).

(** [\w]: the underscore and the code points for which [str.isalnum]
    holds: the ASCII letters and digits, and above 127 the letters,
    superscript digits and fractions of Latin-1. *)
Definition is_word (c : ascii) : bool :=
  let n := nat_of_ascii c in
  ((48 <=? n) && (n <=? 57)) || ((65 <=? n) && (n <=? 90))
  || ((97 <=? n) && (n <=? 122)) || (n =? 95)
  || (n =? 170) || ((178 <=? n) && (n <=? 179)) || (n =? 181)
  || ((185 <=? n) && (n <=? 186)) || ((188 <=? n) && (n <=? 190))
  || ((192 <=? n) && (n <=? 214)) || ((216 <=? n) && (n <=? 246))
  || (248 <=? n).

Definition in_class (k : cclass) (c : ascii) : bool :=
  match k with
  | CSpace => is_space c
  | CWord => is_word c
  | CDot => negb (Ascii.eqb c nl)
  | CNot d => negb (Ascii.eqb c d)
  | CChar d => Ascii.eqb c d
  end.

(** A pattern is a sequence of atoms.  Every pattern of the script has
    this shape: quantifiers are applied to single-character classes only,
    and alternation is between literals. *)
Inductive atom :=
| ABol                        (* ^  under re.MULTILINE *)
| AEol                        (* $  under re.MULTILINE *)
| AWordB                      (* \b *)
| ALit (l : string)           (* re.escape(l): the text l itself *)
| AStar (k : cclass)          (* k*  greedy *)
| APlus (k : cclass)          (* k+  greedy *)
| AOpt (k : cclass)           (* k?  greedy *)
| AAlt (ls : list string)     (* l1|l2|...  tried left to right *)
| AOpen (g : nat)             (* opening parenthesis of group g *)
| AClose (g : nat).           (* closing parenthesis of group g *)

Definition pattern := list atom.

(** Group marks: group number, opening ([true]) or closing, and the
    offset from the start of the match. *)
Definition marks := list (nat * bool * nat).

(** A matcher state is the character before the current position (for
    [^] and [\b]), the text still to read, and the number of characters
    consumed since the start of the match. *)
Definition kont := option ascii → string → nat → marks → option (nat * marks).

Definition at_bol (prev : option ascii) : bool :=
  match prev with
  | None => true
  | Some c => Ascii.eqb c nl
  end.

Definition at_eol (s : string) : bool :=
  match s with
  | EmptyString => true
  | String c _ => Ascii.eqb c nl
  end.

Definition word_before (prev : option ascii) : bool :=
  match prev with
  | None => false
  | Some c => is_word c
  end.

Definition word_after (s : string) : bool :=
  match s with
  | EmptyString => false
  | String c _ => is_word c
  end.

Definition at_word_boundary (prev : option ascii) (s : string) : bool :=
  xorb (word_before prev) (word_after s).

(** Reading the literal [l]: the state after it, if the text starts
    with [l]. *)
Fixpoint eat (l : string) (prev : option ascii) (s : string)
  : option (option ascii * string) :=
  match l with
  | EmptyString => Some (prev, s)
  | String a l' =>
      match s with
      | String c s' => if Ascii.eqb a c then eat l' (Some c) s' else None
      | EmptyString => None
      end
  end.

(** Greedy repetition of a class: as many characters as possible first,
    giving them back one by one while the rest of the pattern fails. *)
Fixpoint star (k : cclass) (cont : kont)
    (prev : option ascii) (s : string) (n : nat) (ms : marks)
  : option (nat * marks) :=
  match s with
  | String c s' =>
      if in_class k c then
        match star k cont (Some c) s' (S n) ms with
        | Some r => Some r
        | None => cont prev s n ms
        end
      else cont prev s n ms
  | EmptyString => cont prev s n ms
  end.

(** Alternation between literals, leftmost alternative first. *)
Fixpoint alt (ls : list string) (cont : kont)
    (prev : option ascii) (s : string) (n : nat) (ms : marks)
  : option (nat * marks) :=
  match ls with
  | [] => None
  | l :: ls' =>
      let other := alt ls' cont prev s n ms in
      match eat l prev s with
      | Some (prev', s') =>
          match cont prev' s' (n + String.length l) ms with
          | Some r => Some r
          | None => other
          end
      | None => other
      end
  end.

(** The backtracking matcher: [rmatch pat prev s n ms] is the first
    match of [pat] at the current position in Python's priority order,
    as the number of characters consumed and the group marks. *)
Fixpoint rmatch (pat : pattern) : kont :=
  match pat with
  | [] => fun _ _ n ms => Some (n, ms)
  | a :: pat' =>
      let cont := rmatch pat' in
      match a with
      | ABol => fun prev s n ms =>
          if at_bol prev then cont prev s n ms else None
      | AEol => fun prev s n ms =>
          if at_eol s then cont prev s n ms else None
      | AWordB => fun prev s n ms =>
          if at_word_boundary prev s then cont prev s n ms else None
      | ALit l => fun prev s n ms =>
          match eat l prev s with
          | Some (prev', s') => cont prev' s' (n + String.length l) ms
          | None => None
          end
      | AStar k => star k cont
      | APlus k => fun prev s n ms =>
          match s with
          | String c s' =>
              if in_class k c then star k cont (Some c) s' (S n) ms else None
          | EmptyString => None
          end
      | AOpt k => fun prev s n ms =>
          match s with
          | String c s' =>
              if in_class k c then
                match cont (Some c) s' (S n) ms with
                | Some r => Some r
                | None => cont prev s n ms
                end
              else cont prev s n ms
          | EmptyString => cont prev s n ms
          end
      | AAlt ls => alt ls cont
      | AOpen g => fun prev s n ms => cont prev s n ((g, true, n) :: ms)
      | AClose g => fun prev s n ms => cont prev s n ((g, false, n) :: ms)
      end
  end.

(** A match object: where it starts, the text of group 0, the marks. *)
Record match_obj := MatchObj {
  m_start : nat;
  m_text : string;
  m_marks : marks
}.

Fixpoint find_mark (g : nat) (o : bool) (ms : marks) : option nat :=
  match ms with
  | [] => None
  | (g', o', n) :: ms' =>
      if (g' =? g) && Bool.eqb o' o then Some n else find_mark g o ms'
  end.

(** [match.group(g)]. *)
Definition group (m : match_obj) (g : nat) : string :=
  match g with
  | 0 => m_text m
  | _ =>
      match find_mark g true (m_marks m), find_mark g false (m_marks m) with
      | Some a, Some b => String.substring a (b - a) (m_text m)
      | _, _ => EmptyString
      end
  end.

(** [re.finditer]: the non-overlapping matches, scanning from the left.
    [skip] counts the characters of the last match still to be passed;
    after an empty match the scan moves on by one character. *)
Fixpoint scan (pat : pattern) (prev : option ascii) (s : string)
    (skip pos : nat) : list match_obj :=
  match skip with
  | S k =>
      match s with
      | String c s' => scan pat (Some c) s' k (S pos)
      | EmptyString => []
      end
  | 0 =>
      match rmatch pat prev s 0 [] with
      | Some (len, ms) =>
          let m := MatchObj pos (String.substring 0 len s) ms in
          match s with
          | String c s' => m :: scan pat (Some c) s' (pred len) (S pos)
          | EmptyString => [m]
          end
      | None =>
          match s with
          | String c s' => scan pat (Some c) s' 0 (S pos)
          | EmptyString => []
          end
      end
  end.

Definition finditer (pat : pattern) (s : string) : list match_obj :=
  scan pat None s 0 0.

(** [re.findall] for a pattern whose result is only counted. *)
Definition findall (pat : pattern) (s : string) : list string :=
  m_text <$> finditer pat s.

(** [re.sub(pat, repl, s, count)]; [limit] is the number of replacements
    still allowed, [None] for no limit. *)
Fixpoint sub_scan (pat : pattern) (repl : string) (limit : option nat)
    (prev : option ascii) (s : string) (skip : nat) : string :=
  match skip with
  | S k =>
      match s with
      | String c s' => sub_scan pat repl limit (Some c) s' k
      | EmptyString => EmptyString
      end
  | 0 =>
      match limit with
      | Some 0 => s
      | _ =>
          match rmatch pat prev s 0 [] with
          | Some (len, _) =>
              let limit' := pred <$> limit in
              repl +:+
              match s with
              | String c s' =>
                  match len with
                  | 0 => String c (sub_scan pat repl limit' (Some c) s' 0)
                  | S k => sub_scan pat repl limit' (Some c) s' k
                  end
              | EmptyString => EmptyString
              end
          | None =>
              match s with
              | String c s' => String c (sub_scan pat repl limit (Some c) s' 0)
              | EmptyString => EmptyString
              end
          end
      end
  end.

(** Python's [count=0] means: replace every match. *)
Definition sub (pat : pattern) (repl : string) (s : string) (count : nat)
  : string :=
  sub_scan pat repl (match count with 0 => None | _ => Some count end)
    None s 0.

End Re.

(* ===================================================================== *)
(** ** The text edits of the two processing functions *)
(* ===================================================================== *)

Module Edit.
Import Re.

(** The raw f-string of the script, atom by atom:
    [^  \s*  {re.escape(var)}  \s*  =  \s*  .*  $] *)
Definition assign_pattern (var : string) : pattern :=
  [ABol; AStar CSpace; ALit var; AStar CSpace; ALit "="; AStar CSpace;
   AStar CDot; AEol].

(** [\n?], appended to the pattern for the substitution. *)
Definition opt_newline : pattern := [AOpt (CChar nl)].

(** One turn of the loop [for var in unused_vars] of
    [process_python_file]. *)
Definition remove_var (acc : string * nat) (var : string) : string * nat :=
  let '(modified_content, removed_count) := acc in
  let pat := assign_pattern var in
  let matches := findall pat modified_content in
  match matches with
  | [] => acc
  | _ => (sub (pat ++ opt_newline) "" modified_content 0,
          removed_count + length matches)
  end.

(** The whole loop, in the order in which the set is iterated. *)
Definition remove_vars (vars : list string) (content : string)
  : string * nat :=
  fold_left remove_var vars (content, 0).

(** The raw string of the script, atom by atom:
    [^  ( \s* )  ( const|let|var )  \s+  ( \w+ )  \s*  =  \s*  [^;]+  ;] *)
Definition var_pattern : pattern :=
  [ABol; AOpen 1; AStar CSpace; AClose 1;
   AOpen 2; AAlt ["const"; "let"; "var"]; AClose 2;
   APlus CSpace; AOpen 3; APlus CWord; AClose 3;
   AStar CSpace; ALit "="; AStar CSpace; APlus (CNot ";"); ALit ";"].

(** [\b  {re.escape(var_name)}  \b] *)
Definition usage_pattern (var_name : string) : pattern :=
  [AWordB; ALit var_name; AWordB].

(** One turn of the loop [for match in list(matches)] of
    [process_javascript_file]. *)
Definition remove_decl (acc : string * nat) (m : match_obj) : string * nat :=
  let '(modified_content, removed_count) := acc in
  let var_name := group m 3 in
  let usage_count := length (findall (usage_pattern var_name) modified_content) in
  if usage_count =? 1 then
    (sub (ALit (group m 0) :: opt_newline) "" modified_content 1,
     removed_count + 1)
  else acc.

(** The matches are taken once, on the content as read. *)
Definition remove_decls (content : string) : string * nat :=
  fold_left remove_decl (finditer var_pattern content) (content, 0).

End Edit.

(* ===================================================================== *)
(** ** The syntax tree and [UnusedVariableDetector] *)
(* ===================================================================== *)

Module Ast.

(** [ast.expr_context]; [ast.AugLoad] is never produced by the parser. *)
Inductive expr_context := Load | Store | Del.

#[global] Instance expr_context_eq_dec : EqDecision expr_context.
Proof. solve_decision. Defined.

(** The node classes the visitor has a method for, and [Other] for every
    other class.  [kids] are the child nodes in the order in which
    [generic_visit] walks them; [params] are the names [arg.arg] of
    [node.args.args]. *)
Inductive node :=
| FunctionDef (params : list string) (kids : list node)
| AsyncFunctionDef (params : list string) (kids : list node)
| Assign (lineno : nat) (targets : list node) (value : node)
| Name (id : string) (ctx : expr_context) (lineno : nat)
| Other (kids : list node).

(** The fields set by [__init__]. *)
Record detector := Detector {
  defined_vars : gmap string (list nat);
  used_vars : gset string;
  current_scope_vars : gmap string nat;
  function_params : gset string
}.

Definition new_detector : detector := Detector ∅ ∅ ∅ ∅.

(** [self.function_params.add(arg.arg)] *)
Definition add_param (d : detector) (a : string) : detector :=
  Detector (defined_vars d) (used_vars d) (current_scope_vars d)
    ({[a]} ∪ function_params d).

(** The body of the loop of [visit_Assign] for one target. *)
Definition add_target (lineno : nat) (d : detector) (target : node)
  : detector :=
  match target with
  | Name id _ _ =>
      let lines := default [] (defined_vars d !! id) in
      Detector (<[id := lines ++ [lineno]]> (defined_vars d))
        (used_vars d) (current_scope_vars d) (function_params d)
  | _ => d
  end.

(** [self.used_vars.add(node.id)] *)
Definition add_used (d : detector) (id : string) : detector :=
  Detector (defined_vars d) ({[id]} ∪ used_vars d) (current_scope_vars d)
    (function_params d).

(** [NodeVisitor.visit]: dispatch on the class of the node; each method
    ends with [self.generic_visit(node)].  This is the detector after a
    walk that completes; on a tree too deep for the recursion limit of
    the interpreter the walk raises instead, which [Script.python_body]
    takes from the host. *)
Fixpoint visit (n : node) (d : detector) : detector :=
  let generic_visit kids d := foldl (λ d k, visit k d) d kids in
  match n with
  | FunctionDef params kids =>
      generic_visit kids (foldl add_param d params)
  | AsyncFunctionDef params kids =>
      generic_visit kids (foldl add_param d params)
  | Assign lineno targets value =>
      visit value (generic_visit targets (foldl (add_target lineno) d targets))
  | Name id ctx _ =>
      match ctx with
      | Load => add_used d id
      | _ => d
      end
  | Other kids => generic_visit kids d
  end.

(** The test of [get_unused_variables] on one name. *)
Definition is_unused (d : detector) (var : string) : Prop :=
  (var ∉ used_vars d) ∧ (var ∉ function_params d)
  ∧ (startswith_underscore var = false).

#[global] Instance is_unused_dec d var : Decision (is_unused d var).
Proof. unfold is_unused. apply _. Defined.

Definition get_unused_variables (d : detector) : gset string :=
  filter (is_unused d) (dom (defined_vars d)).

(** [ast.parse] is outside the script: its outcome is an input. *)
Inductive parse_result :=
| Parsed (tree : node)
| ParseSyntaxError            (* raise SyntaxError *)
| ParseOtherError.            (* any other exception, e.g. RecursionError *)

End Ast.

(* ===================================================================== *)
(** ** Files, faults and the two processing functions *)
(* ===================================================================== *)

Module Script.
Import Re Edit Ast.

(** The disk: the text of every file, by file.  The text of a file is
    what its bytes decode to (UTF-8), line ends as they are stored.  A
    file whose bytes do not decode is a file whose read fails. *)
Abbreviation disk := (gmap string string).

(** The exceptions that can reach the outer handler; all of them are
    subclasses of [Exception]. *)
Inductive exn := OSError | OtherError | RecursionError | UnicodeEncodeError.

(** What goes wrong with the file during one call, if anything: the
    read, the opening for writing (before the file is touched), or the
    write itself after [written] whole characters have reached the
    disk. *)
Inductive fault :=
| NoFault
| ReadFault
| OpenWriteFault
| WriteFault (written : nat).

#[global] Instance fault_eq_dec : EqDecision fault.
Proof. solve_decision. Defined.

(** What the script prints: one constructor for each [print] call of
    the source, with the values formatted into its text. *)
Inductive message :=
| MsgSyntaxError (filepath : string)                    (* l.73 *)
| MsgRemoved (removed_count : nat) (filepath : string)  (* l.100, l.148 *)
| MsgError (filepath : string) (e : exn)                (* l.106, l.154 *)
| MsgScanning                                           (* l.162 *)
| MsgRule                                               (* l.163, l.205 *)
| MsgPython                                             (* l.171 *)
| MsgJavaScript                                         (* l.184 *)
| MsgRuleBelow                                          (* l.199 *)
| MsgSummary                                            (* l.200 *)
| MsgPyCount (py_count : nat)                           (* l.201 *)
| MsgJsCount (js_count : nat)                           (* l.202 *)
| MsgTotalRemoved (total_removed : nat)                 (* l.203 *)
| MsgTotalErrors (total_errors : nat)                   (* l.204 *)
| MsgSuccess                                            (* l.208 *)
| MsgWithErrors (total_errors : nat).                   (* l.210 *)

(** [os.linesep]. *)
Inductive newline := LF | CRLF.

(** The host of a run, as far as the script depends on it:
    - [resolve]: the file a path names, through the links of the file
      system (two paths with the same image are the same file);
    - [linesep]: the line separator of the platform;
    - [stdout]: what [print] raises on a message, if anything: a
      stream whose encoding cannot encode the text raises
      [UnicodeEncodeError], a closed pipe raises [OSError];
    - [deep]: whether walking a tree exceeds the recursion limit of the
      interpreter, so that [detector.visit] raises [RecursionError]. *)
Record host := Host {
  resolve : string → string;
  linesep : newline;
  stdout : message → option exn;
  deep : node → bool
}.

(** Computations that read and write the disk and may raise. *)
Definition io (A : Type) : Type := disk → (exn + A) * disk.

#[global] Instance io_ret : MRet io := λ A x dk, (inr x, dk).
#[global] Instance io_bind : MBind io := λ A B f m dk,
  match m dk with
  | (inl e, dk') => (inl e, dk')
  | (inr x, dk') => f x dk'
  end.

Definition raise {A} (e : exn) : io A := λ dk, (inl e, dk).

(** The carriage return, Python's ['\r']. *)
Definition cr : ascii := "013"%char.

(** Reading in text mode with [newline=None]: a carriage return followed
    by a line feed, and a carriage return alone, become a line feed.
    [after_cr] tells that the character before was a carriage return. *)
Fixpoint translate_in (after_cr : bool) (s : string) : string :=
  match s with
  | EmptyString => EmptyString
  | String c s' =>
      if Ascii.eqb c cr then String nl (translate_in true s')
      else if Ascii.eqb c nl then
        if after_cr then translate_in false s'
        else String nl (translate_in false s')
      else String c (translate_in false s')
  end.

Definition universal_newlines (s : string) : string := translate_in false s.

(** Writing in text mode with [newline=None]: every line feed becomes
    the line separator of the platform. *)
Fixpoint os_newlines (sep : newline) (s : string) : string :=
  match s with
  | EmptyString => EmptyString
  | String c s' =>
      if Ascii.eqb c nl then
        match sep with
        | LF => String nl (os_newlines sep s')
        | CRLF => String cr (String nl (os_newlines sep s'))
        end
      else String c (os_newlines sep s')
  end.

Section Host.
Variable h : host.

(** [print(m)].  The text goes to the standard output, which is not
    part of the state; the call raises what the stream raises on it. *)
Definition print (m : message) : io unit :=
  λ dk,
    match stdout h m with
    | Some e => (inl e, dk)
    | None => (inr tt, dk)
    end.

(** The outcome of [print(m)] followed by [return r]. *)
Definition print_return {A} (m : message) (r : A) : exn + A :=
  match stdout h m with
  | Some e => inl e
  | None => inr r
  end.

(** [with open(filepath, 'r', encoding='utf-8') as f: content = f.read()] *)
Definition read_file (ft : fault) (filepath : string) : io string :=
  λ dk,
    match ft, dk !! resolve h filepath with
    | ReadFault, _ => (inl OSError, dk)
    | _, None => (inl OSError, dk)
    | _, Some content => (inr (universal_newlines content), dk)
    end.

(** [with open(filepath, 'w', encoding='utf-8') as f: f.write(data)]:
    opening truncates the file in place, then the data is written to
    it, through the link if the path is one. *)
Definition write_file (ft : fault) (filepath data : string) : io unit :=
  λ dk,
    match ft with
    | OpenWriteFault => (inl OSError, dk)
    | WriteFault written =>
        (inl OSError,
         <[resolve h filepath :=
             String.substring 0 written (os_newlines (linesep h) data)]> dk)
    | _ => (inr tt, <[resolve h filepath := os_newlines (linesep h) data]> dk)
    end.

(** The handler of both functions: [print(...{filepath}: {e}); return 0, 1] *)
Definition handler (filepath : string) (e : exn) : io (nat * nat) :=
  _ ← print (MsgError filepath e);
  mret (0, 1).

(** [try: body except Exception as e: handler] *)
Definition try_except (filepath : string) (body : io (nat * nat))
  : io (nat * nat) :=
  λ dk,
    match body dk with
    | (inl e, dk') => handler filepath e dk'
    | r => r
    end.

Section Python.
(** [ast.parse], and the order in which a set of names is iterated. *)
Variable parse : string → parse_result.
Variable iter : gset string → list string.

Definition python_body (ft : fault) (filepath : string) : io (nat * nat) :=
  content ← read_file ft filepath;
  match parse content with
  | ParseSyntaxError => _ ← print (MsgSyntaxError filepath); mret (0, 1)
  | ParseOtherError => raise OtherError
  | Parsed tree =>
      if deep h tree then raise RecursionError else
      let detector := visit tree new_detector in
      let unused_vars := get_unused_variables detector in
      if decide (unused_vars = ∅) then mret (0, 0) else
      let '(modified_content, removed_count) :=
        remove_vars (iter unused_vars) content in
      if 0 <? removed_count then
        _ ← write_file ft filepath modified_content;
        _ ← print (MsgRemoved removed_count filepath);
        mret (removed_count, 0)
      else mret (0, 0)
  end.

Definition process_python_file (ft : fault) (filepath : string)
  : io (nat * nat) :=
  try_except filepath (python_body ft filepath).
End Python.

Definition javascript_body (ft : fault) (filepath : string)
  : io (nat * nat) :=
  content ← read_file ft filepath;
  let '(modified_content, removed_count) := remove_decls content in
  if 0 <? removed_count then
    _ ← write_file ft filepath modified_content;
    _ ← print (MsgRemoved removed_count filepath);
    mret (removed_count, 0)
  else mret (0, 0).

Definition process_javascript_file (ft : fault) (filepath : string)
  : io (nat * nat) :=
  try_except filepath (javascript_body ft filepath).

End Host.

End Script.

(* ===================================================================== *)
(** ** What the visitor collects, stated on the tree *)
(* ===================================================================== *)

Module Collect.
Import Ast.

(** Every node of a tree, the root first. *)
Fixpoint nodes (n : node) : list node :=
  n ::
  match n with
  | FunctionDef _ kids | AsyncFunctionDef _ kids | Other kids =>
      flat_map nodes kids
  | Assign _ targets value => flat_map nodes targets ++ nodes value
  | Name _ _ _ => []
  end.

(** The [Load] occurrences of names, with their lines, anywhere below. *)
Fixpoint all_loads (n : node) : list (string * nat) :=
  match n with
  | FunctionDef _ kids | AsyncFunctionDef _ kids | Other kids =>
      flat_map all_loads kids
  | Assign _ targets value => flat_map all_loads targets ++ all_loads value
  | Name id Load l => [(id, l)]
  | Name _ _ _ => []
  end.

(** The positional parameters of every function below. *)
Fixpoint all_params (n : node) : list string :=
  match n with
  | FunctionDef params kids | AsyncFunctionDef params kids =>
      params ++ flat_map all_params kids
  | Other kids => flat_map all_params kids
  | Assign _ targets value => flat_map all_params targets ++ all_params value
  | Name _ _ _ => []
  end.

(** The plain-name targets of one assignment, with its line. *)
Definition name_targets (lineno : nat) (targets : list node)
  : list (string * nat) :=
  flat_map (λ t, match t with Name id _ _ => [(id, lineno)] | _ => [] end)
    targets.

(** Every (name, line) assigned by an [Assign] statement anywhere below. *)
Fixpoint all_assigned (n : node) : list (string * nat) :=
  match n with
  | FunctionDef _ kids | AsyncFunctionDef _ kids | Other kids =>
      flat_map all_assigned kids
  | Assign lineno targets value =>
      name_targets lineno targets
      ++ flat_map all_assigned targets ++ all_assigned value
  | Name _ _ _ => []
  end.

(** The visitor's effect on the detector, in one step: the assignments
    are appended to [defined_vars] in order, the reads and the parameters
    are added to their sets. *)
Definition record_line (m : gmap string (list nat)) (p : string * nat)
  : gmap string (list nat) :=
  <[p.1 := default [] (m !! p.1) ++ [p.2]]> m.

Definition absorb (d : detector) (asg lds : list (string * nat))
    (prm : list string) : detector :=
  Detector (foldl record_line (defined_vars d) asg)
    (list_to_set lds.*1 ∪ used_vars d)
    (current_scope_vars d)
    (list_to_set prm ∪ function_params d).

(** A target that is not a plain name: a tuple, a list, an attribute,
    a subscript. *)
Definition not_name (t : node) : Prop :=
  match t with
  | Name _ _ _ => False
  | _ => True
  end.

End Collect.

(* ===================================================================== *)
(** ** The data model of the specification: scopes, bindings, spans *)
(* ===================================================================== *)

Module Spec.
Import Ast Collect.

(** A binding with the statements of the scope it belongs to. *)
Record binding := Binding {
  b_name : string;
  b_line : nat;
  b_scope : list node
}.

(** Reads written in a scope itself, outside any nested function. *)
Fixpoint own_loads (n : node) : list (string * nat) :=
  match n with
  | FunctionDef _ _ | AsyncFunctionDef _ _ => []
  | Other kids => flat_map own_loads kids
  | Assign _ targets value => flat_map own_loads targets ++ own_loads value
  | Name id Load l => [(id, l)]
  | Name _ _ _ => []
  end.

(** Reads inside the functions nested in a scope (its descendant scopes). *)
Fixpoint closure_loads (n : node) : list (string * nat) :=
  match n with
  | FunctionDef _ kids | AsyncFunctionDef _ kids => flat_map all_loads kids
  | Other kids => flat_map closure_loads kids
  | Assign _ targets value =>
      flat_map closure_loads targets ++ closure_loads value
  | Name _ _ _ => []
  end.

(** Assignments written in a scope itself. *)
Fixpoint own_assigned (n : node) : list (string * nat) :=
  match n with
  | FunctionDef _ _ | AsyncFunctionDef _ _ => []
  | Other kids => flat_map own_assigned kids
  | Assign lineno targets value => name_targets lineno targets
  | Name _ _ _ => []
  end.

(** The scopes opened below a node: one per function. *)
Fixpoint scopes (n : node) : list (list node) :=
  match n with
  | FunctionDef _ kids | AsyncFunctionDef _ kids =>
      kids :: flat_map scopes kids
  | Other kids => flat_map scopes kids
  | Assign _ targets value => flat_map scopes targets ++ scopes value
  | Name _ _ _ => []
  end.

Definition scope_bindings (sc : list node) : list binding :=
  (λ p : string * nat, Binding p.1 p.2 sc) <$> flat_map own_assigned sc.

(** The module scope and every function scope, with their bindings. *)
Definition bindings (tree : node) : list binding :=
  flat_map scope_bindings ([tree] :: scopes tree).

(** The liveness contract of the specification: no read of the name in
    the binding's scope textually after the declaration, and none in a
    nested closure. *)
Definition spec_dead (b : binding) : bool :=
  forallb (λ r : string * nat,
             negb (String.eqb r.1 (b_name b)) || (r.2 <=? b_line b))
    (flat_map own_loads (b_scope b))
  && forallb (λ r : string * nat, negb (String.eqb r.1 (b_name b)))
       (flat_map closure_loads (b_scope b)).

(** Deleting the physical lines [first..last] (numbered from 1). *)
Definition delete_span (first last : nat) (ls : list string) : list string :=
  take (first - 1) ls ++ drop last ls.

End Spec.

(* ===================================================================== *)
(** ** Physical lines and the assignment pattern *)
(* ===================================================================== *)

Module Lines.
Import Re.

Fixpoint skip_spaces (s : string) : string :=
  match s with
  | String c s' => if is_space c then skip_spaces s' else s
  | EmptyString => EmptyString
  end.

Fixpoint strip_prefix (p s : string) : option string :=
  match p with
  | EmptyString => Some s
  | String a p' =>
      match s with
      | String c s' => if Ascii.eqb a c then strip_prefix p' s' else None
      | EmptyString => None
      end
  end.

(** The character before the position reached after reading [w]. *)
Fixpoint last_char (prev : option ascii) (w : string) : option ascii :=
  match w with
  | String c w' => last_char (Some c) w'
  | EmptyString => prev
  end.

(** A greedy run of the class [k] stops in front of [t]. *)
Definition stops (k : cclass) (t : string) : Prop :=
  match t with
  | String c _ => in_class k c = false
  | EmptyString => True
  end.

Fixpoint all_chars (f : ascii → bool) (s : string) : bool :=
  match s with
  | String c s' => f c && all_chars f s'
  | EmptyString => true
  end.

(** A name as the tree has them: not empty, word characters only. *)
Definition identifier (var : string) : bool :=
  negb (String.eqb var "") && all_chars is_word var.

(** A physical line holds no line feed. *)
Definition one_line (l : string) : bool :=
  all_chars (λ c, negb (Ascii.eqb c nl)) l.

(** How a physical line stands to the pattern of [var]:
    - [Removed]: blanks, [var], blanks, [=], then a value on the line;
    - [Kept]: it holds something else;
    - [Open]: it is blank, or it ends right after [var] or after the
      [=], so that the blanks of the pattern run on into the next line. *)
Inductive line_kind := Removed | Kept | Open.

#[global] Instance line_kind_eq_dec : EqDecision line_kind.
Proof. solve_decision. Defined.

Definition classify (var l : string) : line_kind :=
  match skip_spaces l with
  | EmptyString => Open
  | body =>
      match strip_prefix var body with
      | None => Kept
      | Some after =>
          match skip_spaces after with
          | EmptyString => Open
          | String c value =>
              if Ascii.eqb c "=" then
                match skip_spaces value with
                | EmptyString => Open
                | _ => Removed
                end
              else Kept
          end
      end
  end.

(** A file in which no match of the pattern can run over a line end. *)
Definition plain (var : string) (ls : list string) : Prop :=
  Forall (λ l, one_line l = true ∧ classify var l ≠ Open) ls.

Definition kept_lines (var : string) (ls : list string) : list string :=
  filter (λ l, classify var l = Kept) ls.

Definition removed_lines (var : string) (ls : list string) : list string :=
  filter (λ l, classify var l = Removed) ls.

End Lines.

(* ===================================================================== *)
(** ** Concrete files: text, and the tree [ast.parse] gives for it *)
(* ===================================================================== *)

Module Files.
Import Ast Script.

(** [ast.parse] on the files listed; no other text is parsed below. *)
Definition parse_table (tbl : list (string * node)) (s : string)
  : parse_result :=
  match list_find (λ e : string * node, e.1 = s) tbl with
  | Some (_, (_, tree)) => Parsed tree
  | None => ParseSyntaxError
  end.

(** A POSIX host with a UTF-8 terminal: no links, the line feed as line
    separator, every message printed, every tree within the recursion
    limit. *)
Definition posix : host := Host id LF (λ _, None) (λ _, false).

(** The messages whose text in the source holds a character outside
    ASCII: the marks at the start of l.73, l.100, l.106, l.148, l.154,
    l.171, l.184, l.200, l.208 and l.210. *)
Definition decorated (m : message) : bool :=
  match m with
  | MsgSyntaxError _ | MsgRemoved _ _ | MsgError _ _
  | MsgPython | MsgJavaScript | MsgSummary | MsgSuccess | MsgWithErrors _ =>
      true
  | _ => false
  end.

(** The same host with a standard output that encodes to ASCII (the
    [C] locale, a pipe under [PYTHONIOENCODING=ascii]): [print] raises
    [UnicodeEncodeError] on every message with such a mark. *)
Definition ascii_console : host :=
  Host id LF (λ m, if decorated m then Some UnicodeEncodeError else None)
    (λ _, false).

(** A Windows host: the same, with CR LF as line separator. *)
Definition windows : host := Host id CRLF (λ _, None) (λ _, false).

(** A host whose standard output is a pipe that is not ready when the
    first message comes: that [print] raises (a [BlockingIOError], which
    is an [OSError]), the later ones go through. *)
Definition busy_pipe : host :=
  Host id LF (λ m, match m with MsgRemoved _ _ => Some OSError | _ => None end)
    (λ _, false).

(** [Constant], [Load()] and the other leaves. *)
Definition leaf : node := Other [].
(** [Expr(Call(Name f, [Name arg]))], the statement [f(arg)]. *)
Definition call_stmt (f arg : string) (l : nat) : node :=
  Other [Other [Name f Load l; Name arg Load l]].
Definition module (body : list node) : node := Other body.

Definition path : string := "app.py".
Definition js_path : string := "app.js".

(** Scenario B of the specification. *)
Definition scenario_b : string := text ["x = 1"; "y = 2"; "print(x)"].
Definition scenario_b_tree : node :=
  module [Assign 1 [Name "x" Store 1] leaf;
          Assign 2 [Name "y" Store 2] leaf;
          call_stmt "print" "x" 3].
Definition scenario_b_out : string := text ["x = 1"; "print(x)"].
(** The same file with the line ends of Windows. *)
Definition scenario_b_crlf : string := os_newlines CRLF scenario_b.

(** Scenario A of the specification. *)
Definition scenario_a : string := text ["x = 1"; "print(x)"].
Definition scenario_a_tree : node :=
  module [Assign 1 [Name "x" Store 1] leaf; call_stmt "print" "x" 2].

(** A chained assignment whose second target is read. *)
Definition chained : string := text ["y = x = 1"; "print(x)"].
Definition chained_tree : node :=
  module [Assign 1 [Name "y" Store 1; Name "x" Store 1] leaf;
          call_stmt "print" "x" 2].
Definition chained_out : string := text ["print(x)"].
Definition chained_out_tree : node := module [call_stmt "print" "x" 1].

(** A binding read only by another dead binding. *)
Definition cascade : string := text ["a = 1"; "b = a"].
Definition cascade_tree : node :=
  module [Assign 1 [Name "a" Store 1] leaf;
          Assign 2 [Name "b" Store 2] (Name "a" Load 2)].
Definition cascade_out : string := text ["a = 1"].
Definition cascade_out_tree : node :=
  module [Assign 1 [Name "a" Store 1] leaf].
Definition js_cascade : string := text ["const a = 1;"; "const b = a;"].
Definition js_cascade_out : string := text ["const a = 1;"].

(** [y] is assigned in [f] and read in the sibling function [g]:
    [def f():] / [    y = 1] / [def g():] / [    return y]. *)
Definition siblings_tree : node :=
  module [FunctionDef [] [leaf; Assign 2 [Name "y" Store 2] leaf];
          FunctionDef [] [leaf; Other [Name "y" Load 4]]].
Definition y_in_f : Spec.binding :=
  Spec.Binding "y" 2 [leaf; Assign 2 [Name "y" Store 2] leaf].

(** The same name assigned twice and never read. *)
Definition twice : list string := ["x = 1"; "x = 2"].
Definition twice_tree : node :=
  module [Assign 1 [Name "x" Store 1] leaf;
          Assign 2 [Name "x" Store 2] leaf].

(** A list display over three physical lines. *)
Definition multiline : list string := ["y = ["; "    1,"; "]"].
Definition multiline_tree : node :=
  module [Assign 1 [Name "y" Store 1] (Other [leaf])].

(** A chained assignment, nothing read. *)
Definition chained_unread : list string := ["x = y = 1"].
Definition chained_unread_tree : node :=
  module [Assign 1 [Name "x" Store 1; Name "y" Store 1] leaf].

(** A tuple target: [a, b = 1, 2]. *)
Definition tuple_assign : node :=
  Assign 1 [Other [Name "a" Store 1; Name "b" Store 1]] (Other [leaf; leaf]).

(** A declaration whose name is used on the next line. *)
Definition js_used : string := text ["const a = 1;"; "use(a);"].

(** Scenario D of the specification, in a script file. *)
Definition js_marker : string := text ["const _tmp = compute();"].

(** An unclosed parenthesis. *)
Definition broken : string := text ["x = ("].

End Files.

(* ===================================================================== *)
(** ** Several names, blank lines, characters *)
(* ===================================================================== *)

Module Names.
Import Re Lines.

(** The lines that no name of [vars] removes. *)
Definition kept_by_all (vars : list string) (ls : list string) : list string :=
  filter (λ l, Forall (λ v, classify v l = Kept) vars) ls.

(** Every name is an identifier and the file is plain for it. *)
Definition all_plain (vars : list string) (ls : list string) : Prop :=
  Forall (λ v, identifier v = true ∧ plain v ls) vars.

(** A physical line of white space only (or empty). *)
Definition blank (l : string) : Prop :=
  one_line l = true ∧ all_chars is_space l = true.

(** The characters of a text, in order. *)
Definition chars (s : string) : list ascii := list_ascii_of_string s.

(** A text without the line feed it starts with, if it starts with one:
    what [\n?] takes. *)
Definition after_newline (s : string) : string :=
  match s with
  | String c s' => if Ascii.eqb c nl then s' else s
  | EmptyString => EmptyString
  end.

(** A declaration of the other mode, up to and including its first
    semicolon: indentation, keyword, blanks, name, blanks, [=], blanks,
    and an initializer without semicolon. *)
Definition declaration (indent kw sp1 name sp2 sp3 init : string) : string :=
  indent +:+ kw +:+ sp1 +:+ name +:+ sp2
  +:+ String "=" (sp3 +:+ init +:+ String ";" "").

Definition spaces (sp : string) : Prop := all_chars is_space sp = true.

(** The parts of a declaration are well formed. *)
Definition declares (indent kw sp1 name sp2 sp3 init : string) : Prop :=
  kw ∈ ["const"; "let"; "var"]
  ∧ spaces indent ∧ spaces sp1 ∧ sp1 ≠ "" ∧ spaces sp2 ∧ spaces sp3
  ∧ identifier name = true
  ∧ all_chars (in_class (CNot ";")) init = true
  ∧ match init with
    | String c _ => is_space c = false
    | EmptyString => False
    end.

End Names.

(* ===================================================================== *)
(** ** The sweep over the workspace: [main] *)
(* ===================================================================== *)

Module Walk.
Import Re Edit Ast Script Names.

(** A path, as [pathlib] splits it: its [parts]. *)
Abbreviation path := (list string).

(** [path.name]: the last part. *)
Definition name (p : path) : string := default "" (last p).

Fixpoint join (sep : string) (l : list string) : string :=
  match l with
  | [] => ""
  | [x] => x
  | x :: l' => x +:+ sep +:+ join sep l'
  end.

(** [str(path)] for a POSIX path: the parts joined by slashes, after
    the root if the path is absolute. *)
Definition path_str (p : path) : string :=
  match p with
  | "/" :: rest => "/" +:+ join "/" rest
  | _ => join "/" p
  end.

(** Shell-style patterns on a name, as [rglob] takes them. *)
Inductive gatom :=
| GStar                       (* *      any run of characters *)
| GAny                        (* ?      any one character *)
| GSet (cs : list ascii)      (* [abc]  one of these *)
| GChar (c : ascii).          (* c      itself *)

Fixpoint glob_match (pat : list gatom) : string → bool :=
  match pat with
  | [] => λ s, match s with EmptyString => true | _ => false end
  | a :: pat' =>
      match a with
      | GStar =>
          fix star (s : string) : bool :=
            glob_match pat' s
            || match s with
               | String _ s' => star s'
               | EmptyString => false
               end
      | GAny => λ s,
          match s with
          | String _ s' => glob_match pat' s'
          | EmptyString => false
          end
      | GSet cs => λ s,
          match s with
          | String c s' => existsb (Ascii.eqb c) cs && glob_match pat' s'
          | EmptyString => false
          end
      | GChar d => λ s,
          match s with
          | String c s' => Ascii.eqb c d && glob_match pat' s'
          | EmptyString => false
          end
      end
  end.

(** The pattern of the first loop, [*.py]. *)
Definition py_glob : list gatom :=
  [GStar; GChar "."; GChar "p"; GChar "y"].

(** The pattern of the second loop, [*.[jt]s[x]?]. *)
Definition js_glob : list gatom :=
  [GStar; GChar "."; GSet ["j"; "t"]%char; GChar "s"; GSet ["x"]%char; GAny].

(** [str.rfind('.')] *)
Fixpoint rfind_dot (s : string) : option nat :=
  match s with
  | EmptyString => None
  | String c s' =>
      match rfind_dot s' with
      | Some i => Some (S i)
      | None => if Ascii.eqb c "." then Some 0 else None
      end
  end.

(** [path.suffix]: the name from its last dot on, when that dot is
    neither the first nor the last character of the name. *)
Definition suffix (p : path) : string :=
  let name := name p in
  match rfind_dot name with
  | Some i =>
      if (0 <? i) && (i <? String.length name - 1)
      then String.substring i (String.length name - i) name
      else ""
  | None => ""
  end.

Definition py_skip : list string :=
  ["node_modules"; ".venv"; "venv"; "__pycache__"].
Definition js_skip : list string :=
  ["node_modules"; ".next"; "dist"; "build"].
Definition js_suffixes : list string := [".js"; ".jsx"; ".ts"; ".tsx"].

(** [any(skip in file.parts for skip in skips)] *)
Definition skipped (skips : list string) (p : path) : bool :=
  existsb (λ skip, bool_decide (skip ∈ p)) skips.

(** The four counters of [main], which it prints at the end. *)
Record summary := Summary {
  total_removed : nat;
  total_errors : nat;
  py_count : nat;
  js_count : nat
}.

(** A [for] loop that threads the counters through the calls. *)
Fixpoint for_each {A B} (body : A → B → io A) (acc : A) (l : list B) : io A :=
  match l with
  | [] => mret acc
  | x :: l' => acc' ← body acc x; for_each body acc' l'
  end.

Section Main.
  (** The host, [ast.parse], the order of iteration over a set, and the
      fault that strikes the call on each file. *)
Variable h : host.
Variable parse : string → parse_result.
Variable iter : gset string → list string.
Variable fault_at : string → fault.

(** The body of the first loop. *)
Definition py_step (acc : summary) (py_file : path) : io summary :=
  if skipped py_skip py_file then mret acc else
  r ← process_python_file h parse iter (fault_at (path_str py_file))
         (path_str py_file);
  let '(removed, errors) := r in
  mret (Summary (total_removed acc + removed) (total_errors acc + errors)
          (if (0 <? removed) || (0 <? errors)
           then py_count acc + 1 else py_count acc)
          (js_count acc)).

(** The body of the second loop. *)
Definition js_step (acc : summary) (js_file : path) : io summary :=
  if skipped js_skip js_file then mret acc else
  if bool_decide (suffix js_file ∈ js_suffixes) then
    r ← process_javascript_file h (fault_at (path_str js_file))
           (path_str js_file);
    let '(removed, errors) := r in
    mret (Summary (total_removed acc + removed) (total_errors acc + errors)
            (py_count acc)
            (if (0 <? removed) || (0 <? errors)
             then js_count acc + 1 else js_count acc))
  else mret acc.

(** The lines of the summary, l.199 to l.210. *)
Definition report (acc : summary) : io unit :=
  _ ← print h MsgRuleBelow;
  _ ← print h MsgSummary;
  _ ← print h (MsgPyCount (py_count acc));
  _ ← print h (MsgJsCount (js_count acc));
  _ ← print h (MsgTotalRemoved (total_removed acc));
  _ ← print h (MsgTotalErrors (total_errors acc));
  _ ← print h MsgRule;
  if total_errors acc =? 0 then print h MsgSuccess
  else print h (MsgWithErrors (total_errors acc)).

(** [main], on the files the two calls of [rglob] enumerate, in its
    three parts: l.162 to l.181, l.184 to l.196, and the summary.  The
    calls of the two processing functions stand in no [try].  The
    counters, which [main] prints, are returned. *)
Definition first_loop (py_files : list path) : io summary :=
  _ ← print h MsgScanning;
  _ ← print h MsgRule;
  _ ← print h MsgPython;
  for_each py_step (Summary 0 0 0 0) py_files.

Definition second_loop (acc : summary) (js_files : list path) : io summary :=
  _ ← print h MsgJavaScript;
  for_each js_step acc js_files.

Definition main (py_files js_files : list path) : io summary :=
  acc ← first_loop py_files;
  acc ← second_loop acc js_files;
  _ ← report acc;
  mret acc.
End Main.

(** The files of the first loop that are not skipped. *)
Definition swept (py_files : list path) : list path :=
  filter (λ p, skipped py_skip p = false) py_files.

(** The files of the second loop that are not skipped and have one of
    the four suffixes. *)
Definition js_swept (js_files : list path) : list path :=
  filter (λ p, skipped js_skip p = false ∧ suffix p ∈ js_suffixes) js_files.

(** The file a path of the sweep names. *)
Definition file_of (h : host) (p : path) : string := resolve h (path_str p).

(** What a loop over [files] keeps true of the disk, however it ends:
    no file appears or disappears, a file that none of the paths names
    is untouched, and the text of a file, as Python reads it, only loses
    characters. *)
Definition disk_inv (h : host) (files : list path) (dk dk' : disk) : Prop :=
  dom dk' = dom dk
  ∧ (∀ f, f ∉ file_of h <$> files → dk' !! f = dk !! f)
  ∧ (∀ f content, dk !! f = Some content →
       ∃ content', dk' !! f = Some content'
                   ∧ sublist (chars (universal_newlines content'))
                       (chars (universal_newlines content))).

(** What a loop that completes keeps true of the counters. *)
Definition count_inv (count : summary → nat) (files : list path)
    (acc : summary) (dk : disk) (acc' : summary) (dk' : disk) : Prop :=
  total_removed acc ≤ total_removed acc'
  ∧ total_errors acc ≤ total_errors acc'
  ∧ count acc ≤ count acc'
  ∧ total_errors acc' + count acc ≤ total_errors acc + count acc'
  ∧ count acc' ≤ count acc + length files
  ∧ count acc' + total_removed acc + total_errors acc
    ≤ count acc + total_removed acc' + total_errors acc'
  ∧ (total_removed acc' = total_removed acc →
     total_errors acc' = total_errors acc → dk' = dk ∧ count acc' = count acc).

(** A small workspace: a script with a dead binding, a vendored file
    under [node_modules], and a file the second pattern matches. *)
Definition ws_py : list path :=
  [["/"; "ws"; "app.py"]; ["/"; "ws"; "node_modules"; "dep.py"]].
Definition ws_js : list path := [["/"; "ws"; "view.jsxa"]].
Definition ws_disk : disk :=
  {[ "/ws/app.py" := Files.scenario_b;
     "/ws/node_modules/dep.py" := Files.scenario_b;
     "/ws/view.jsxa" := Files.js_marker ]}.
Definition ws_parse : string → parse_result :=
  Files.parse_table [(Files.scenario_b, Files.scenario_b_tree)].

End Walk.

(* ===================================================================== *)
(** * Properties *)
(* ===================================================================== *)

(** ** Character classes and strings *)

Module TextFacts.
Import Re Lines.

Lemma word_not_space c : is_word c = true → is_space c = false.
Proof.
  destruct c as [[] [] [] [] [] [] [] []]; vm_compute; congruence.
Qed.

Lemma space_not_word c : is_space c = true → is_word c = false.
Proof.
  intros Hs. destruct (is_word c) eqn:Hw; [|done].
  apply word_not_space in Hw. congruence.
Qed.

Lemma append_nil_r s : s +:+ "" = s.
Proof. induction s as [|c s IH]; simpl; [done | by rewrite IH]. Qed.

Lemma append_assoc (a b c : string) : (a +:+ b) +:+ c = a +:+ (b +:+ c).
Proof. induction a as [|x a IH]; simpl; [done | by rewrite IH]. Qed.

Lemma length_append (a b : string) :
  String.length (a +:+ b) = String.length a + String.length b.
Proof. induction a as [|x a IH]; simpl; [done | by rewrite IH]. Qed.

Lemma all_chars_append f a b :
  all_chars f (a +:+ b) = all_chars f a && all_chars f b.
Proof. induction a; simpl; [done|]. rewrite IHa. by rewrite andb_assoc. Qed.

Lemma last_char_append prev a b :
  last_char prev (a +:+ b) = last_char (last_char prev a) b.
Proof. revert prev. induction a; simpl; auto. Qed.

(** [skip_spaces] splits a text into its leading blanks and the rest. *)
Lemma skip_spaces_split s :
  ∃ sp, s = sp +:+ skip_spaces s ∧ all_chars is_space sp = true.
Proof.
  induction s as [|c s [sp [Hs Hsp]]]; simpl.
  - by exists "".
  - destruct (is_space c) eqn:Hc.
    + exists (String c sp). simpl. rewrite Hc, Hsp. split; [congruence|done].
    + by exists "".
Qed.

Lemma skip_spaces_head s c t :
  skip_spaces s = String c t → is_space c = false.
Proof.
  induction s as [|a s IH]; simpl; [done|].
  destruct (is_space a) eqn:Ha; [done|]. by intros [= <- _].
Qed.

Lemma strip_prefix_Some p s t : strip_prefix p s = Some t → s = p +:+ t.
Proof.
  revert s. induction p as [|a p IH]; simpl; intros s.
  - by intros [= ->].
  - destruct s as [|c s]; [done|].
    destruct (Ascii.eqb_spec a c) as [->|]; [|done].
    intros H. by rewrite (IH _ H).
Qed.

Lemma one_line_append a b : one_line (a +:+ b) = one_line a && one_line b.
Proof. apply all_chars_append. Qed.

End TextFacts.

(** ** The matcher on the assignment pattern *)

Module MatchFacts.
Import Re Lines Edit TextFacts.

(** A greedy run followed by a pattern that cannot start inside the run:
    no backtracking, the run is taken whole. *)
Lemma star_run k cont prev sp t n ms :
  all_chars (in_class k) sp = true →
  stops k t →
  (∀ p c u m, in_class k c = true → cont p (String c u) m ms = None) →
  star k cont prev (sp +:+ t) n ms
  = cont (last_char prev sp) t (n + String.length sp) ms.
Proof.
  intros Hsp Ht Hblock. revert prev n Hsp.
  induction sp as [|a sp IH]; intros prev n Hsp; simpl.
  - rewrite Nat.add_0_r. destruct t as [|c u]; simpl in *; [done|].
    by rewrite Ht.
  - simpl in Hsp. apply andb_prop in Hsp as [Ha Hsp]. rewrite Ha.
    rewrite (IH (Some a) (S n) Hsp).
    replace (S n + String.length sp) with (n + S (String.length sp)) by lia.
    destruct (cont _ t _ ms) as [r|] eqn:E; [done|].
    by apply Hblock.
Qed.

(** A greedy run after which the rest of the pattern succeeds. *)
Lemma star_run_ok k cont prev sp t n ms r :
  all_chars (in_class k) sp = true →
  stops k t →
  cont (last_char prev sp) t (n + String.length sp) ms = Some r →
  star k cont prev (sp +:+ t) n ms = Some r.
Proof.
  intros Hsp Ht. revert prev n Hsp.
  induction sp as [|a sp IH]; intros prev n Hsp; simpl.
  - rewrite Nat.add_0_r. intros H. destruct t as [|c u]; simpl in *; [done|].
    by rewrite Ht.
  - simpl in Hsp. apply andb_prop in Hsp as [Ha Hsp]. rewrite Ha.
    replace (n + S (String.length sp)) with (S n + String.length sp) by lia.
    intros H. by rewrite (IH (Some a) (S n) Hsp H).
Qed.

Lemma eat_strip l prev s :
  eat l prev s = (λ t, (last_char prev l, t)) <$> strip_prefix l s.
Proof.
  revert prev s. induction l as [|a l IH]; intros prev s; simpl; [done|].
  destruct s as [|c s]; [done|].
  destruct (Ascii.eqb_spec a c) as [->|]; [apply IH|done].
Qed.

Lemma strip_prefix_append p t : strip_prefix p (p +:+ t) = Some t.
Proof.
  induction p as [|a p IH]; simpl; [done|]. by rewrite Ascii.eqb_refl.
Qed.

(** A name is not found across a line end. *)
Lemma strip_prefix_line p b rest :
  one_line p = true →
  strip_prefix p b = None →
  strip_prefix p (b +:+ String nl rest) = None.
Proof.
  revert b. induction p as [|a p IH]; intros b Hp; simpl; [done|].
  simpl in Hp. apply andb_prop in Hp as [Ha Hp].
  destruct b as [|c b]; simpl.
  - intros _. destruct (Ascii.eqb_spec a nl) as [->|]; [|done].
    by vm_compute in Ha.
  - destruct (Ascii.eqb a c); [by apply IH|done].
Qed.

Lemma identifier_head var :
  identifier var = true →
  ∃ v vs, var = String v vs ∧ is_word v = true.
Proof.
  unfold identifier. destruct var as [|v vs]; simpl; [done|].
  intros H. apply andb_prop in H as [H _]. eauto.
Qed.

Lemma word_one_line var : all_chars is_word var = true → one_line var = true.
Proof.
  unfold one_line. induction var as [|c var IH]; simpl; [done|].
  intros H. apply andb_prop in H as [Hc H]. rewrite (IH H), andb_true_r.
  destruct (Ascii.eqb_spec c nl) as [->|]; [by vm_compute in Hc|done].
Qed.

Lemma identifier_one_line var : identifier var = true → one_line var = true.
Proof.
  unfold identifier. intros H. apply andb_prop in H as [_ H].
  by apply word_one_line.
Qed.

(** The shape of a line the pattern removes. *)
Lemma classify_removed var l :
  classify var l = Removed →
  ∃ sp0 sp1 sp2 c value,
    l = sp0 +:+ var +:+ sp1 +:+ String "=" (sp2 +:+ String c value)
    ∧ all_chars is_space sp0 = true ∧ all_chars is_space sp1 = true
    ∧ all_chars is_space sp2 = true ∧ is_space c = false.
Proof.
  unfold classify.
  destruct (skip_spaces_split l) as (sp0 & Hl & H0).
  destruct (skip_spaces l) as [|b body] eqn:Hb; [done|].
  destruct (strip_prefix var (String b body)) as [after|] eqn:Hv; [|done].
  destruct (skip_spaces_split after) as (sp1 & Ha & H1).
  destruct (skip_spaces after) as [|e value0] eqn:He; [done|].
  destruct (Ascii.eqb_spec e "=") as [->|]; [|done].
  destruct (skip_spaces_split value0) as (sp2 & Hval & H2).
  destruct (skip_spaces value0) as [|c value] eqn:Hc; [done|].
  intros _. exists sp0, sp1, sp2, c, value.
  apply strip_prefix_Some in Hv. apply skip_spaces_head in Hc.
  split_and!; try done. by rewrite Hl, Hv, Ha, Hval.
Qed.

(** The matcher, one atom at a time. *)
Lemma rmatch_bol pat prev s n ms :
  rmatch (ABol :: pat) prev s n ms
  = if at_bol prev then rmatch pat prev s n ms else None.
Proof. done. Qed.

Lemma rmatch_eol pat prev s n ms :
  rmatch (AEol :: pat) prev s n ms
  = if at_eol s then rmatch pat prev s n ms else None.
Proof. done. Qed.

Lemma rmatch_star k pat prev s n ms :
  rmatch (AStar k :: pat) prev s n ms = star k (rmatch pat) prev s n ms.
Proof. done. Qed.

Lemma rmatch_lit l pat prev s n ms :
  rmatch (ALit l :: pat) prev s n ms
  = match strip_prefix l s with
    | Some t => rmatch pat (last_char prev l) t (n + String.length l) ms
    | None => None
    end.
Proof. cbn [rmatch]. rewrite eat_strip. by destruct (strip_prefix l s). Qed.

Section Pattern.
Variable var : string.
Hypothesis Hvar : identifier var = true.

(** The rest of the pattern after the name cannot start on a blank. *)
Lemma name_blocks tail p c u m ms :
  is_space c = true →
  rmatch (ALit var :: tail) p (String c u) m ms = None.
Proof using Hvar.
  intros Hc. destruct (identifier_head var Hvar) as (v & vs & -> & Hv).
  rewrite rmatch_lit. cbn [strip_prefix].
  destruct (Ascii.eqb_spec v c) as [->|]; [|done].
  apply word_not_space in Hv. congruence.
Qed.

Lemma equals_blocks tail p c u m ms :
  is_space c = true →
  rmatch (ALit "=" :: tail) p (String c u) m ms = None.
Proof.
  intros Hc. rewrite rmatch_lit. cbn [strip_prefix].
  destruct (Ascii.eqb_spec "=" c) as [<-|]; [|done].
  by vm_compute in Hc.
Qed.

Lemma name_stops t : stops CSpace (var +:+ t).
Proof using Hvar.
  destruct (identifier_head var Hvar) as (v & vs & -> & Hv).
  simpl. by apply word_not_space.
Qed.

(** On a line of kind [Removed] the pattern matches the whole line,
    and what follows the pattern starts at the line feed. *)
Lemma match_removed tail prev l rest r :
  at_bol prev = true →
  one_line l = true →
  classify var l = Removed →
  (∀ p, rmatch tail p (String nl rest) (String.length l) [] = Some r) →
  rmatch (assign_pattern var ++ tail) prev (l +:+ String nl rest) 0 []
  = Some r.
Proof using Hvar.
  intros Hbol Hl Hk Htail.
  destruct (classify_removed var l Hk)
    as (sp0 & sp1 & sp2 & c & value & -> & H0 & H1 & H2 & Hc).
  unfold assign_pattern. cbn [app]. rewrite rmatch_bol, Hbol.
  rewrite !append_assoc. cbn [String.append].
  rewrite rmatch_star.
  rewrite star_run;
    [|exact H0|apply name_stops|intros; by apply name_blocks].
  rewrite rmatch_lit, strip_prefix_append, rmatch_star.
  rewrite star_run; [|exact H1|done|intros; by apply equals_blocks].
  rewrite rmatch_lit. cbn [strip_prefix]. rewrite Ascii.eqb_refl.
  rewrite !one_line_append in Hl. cbn [one_line all_chars] in Hl.
  rewrite !one_line_append in Hl.
  apply andb_prop in Hl as [_ Hl]. apply andb_prop in Hl as [_ Hl].
  apply andb_prop in Hl as [_ Hl]. apply andb_prop in Hl as [_ Hl].
  apply andb_prop in Hl as [_ Hl].
  rewrite rmatch_star, append_assoc.
  apply star_run_ok; [exact H2|exact Hc|].
  rewrite rmatch_star.
  apply star_run_ok; [exact Hl|done|].
  rewrite rmatch_eol. cbn [at_eol]. rewrite Ascii.eqb_refl.
  erewrite <- Htail. f_equal.
  rewrite !length_append. cbn [String.length].
  rewrite !length_append. cbn [String.length]. lia.
Qed.

(** On a line of kind [Kept] the pattern does not match. *)
Lemma match_kept tail prev l rest :
  one_line l = true →
  classify var l = Kept →
  rmatch (assign_pattern var ++ tail) prev (l +:+ String nl rest) 0 []
  = None.
Proof using Hvar.
  intros Hl. unfold classify, assign_pattern. cbn [app].
  rewrite rmatch_bol. destruct (at_bol prev); [|done].
  destruct (skip_spaces_split l) as (sp0 & Hsplit & H0).
  destruct (skip_spaces l) as [|b body] eqn:Hb; [done|].
  rewrite Hsplit, append_assoc, rmatch_star.
  rewrite star_run; [|exact H0| |intros; by apply name_blocks].
  2:{ simpl. by apply skip_spaces_head in Hb. }
  rewrite rmatch_lit.
  destruct (strip_prefix var (String b body)) as [after|] eqn:Hv.
  - destruct (skip_spaces_split after) as (sp1 & Ha & H1).
    destruct (skip_spaces after) as [|e value0] eqn:He; [done|].
    destruct (Ascii.eqb_spec e "=") as [->|Hne].
    { by destruct (skip_spaces value0). }
    intros _. apply strip_prefix_Some in Hv. rewrite Hv, Ha.
    rewrite append_assoc, strip_prefix_append, rmatch_star.
    rewrite append_assoc. cbn [String.append].
    rewrite star_run; [|exact H1| |intros; by apply equals_blocks].
    2:{ simpl. by apply skip_spaces_head in He. }
    rewrite rmatch_lit. cbn [strip_prefix].
    destruct (Ascii.eqb_spec "=" e) as [<-|]; done.
  - intros _.
    by rewrite strip_prefix_line; [| apply identifier_one_line |].
Qed.
End Pattern.

End MatchFacts.

(** ** Scanning a file line by line *)

Module ScanFacts.
Import Re Lines Edit TextFacts MatchFacts.

Lemma sub_skip pat repl limit prev w t :
  sub_scan pat repl limit prev (w +:+ t) (String.length w)
  = sub_scan pat repl limit (last_char prev w) t 0.
Proof.
  revert prev. induction w as [|c w IH]; intros prev; [done|]. apply IH.
Qed.

Lemma scan_skip pat prev w t pos :
  scan pat prev (w +:+ t) (String.length w) pos
  = scan pat (last_char prev w) t 0 (pos + String.length w).
Proof.
  revert prev pos. induction w as [|c w IH]; intros prev pos.
  - simpl. by rewrite Nat.add_0_r.
  - simpl. rewrite IH. f_equal. lia.
Qed.

Lemma one_line_head c l : one_line (String c l) = true → at_bol (Some c) = false.
Proof.
  unfold one_line. simpl. intros H. apply andb_prop in H as [H _].
  by apply negb_true_iff in H.
Qed.

Lemma one_line_tail c l : one_line (String c l) = true → one_line l = true.
Proof. unfold one_line. simpl. intros H. by apply andb_prop in H as [_ H]. Qed.

Lemma last_char_line prev w :
  one_line w = true → at_bol prev = false → at_bol (last_char prev w) = false.
Proof.
  revert prev. induction w as [|c w IH]; intros prev Hw Hp; [done|].
  simpl. apply IH; [by eapply one_line_tail | by eapply one_line_head].
Qed.

(** A pattern anchored by [^] finds nothing inside a physical line. *)
Lemma sub_inside pat repl prev l rest :
  one_line l = true → at_bol prev = false →
  sub_scan (ABol :: pat) repl None prev (l +:+ String nl rest) 0
  = l +:+ String nl (sub_scan (ABol :: pat) repl None (Some nl) rest 0).
Proof.
  revert prev. induction l as [|c l IH]; intros prev Hl Hp.
  - cbn [String.append sub_scan]. by rewrite rmatch_bol, Hp.
  - cbn [String.append sub_scan]. rewrite rmatch_bol, Hp.
    rewrite IH; [done | by eapply one_line_tail | by eapply one_line_head].
Qed.

Lemma scan_inside pat prev l rest pos :
  one_line l = true → at_bol prev = false →
  length (scan (ABol :: pat) prev (l +:+ String nl rest) 0 pos)
  = length (scan (ABol :: pat) (Some nl) rest 0 (S (pos + String.length l))).
Proof.
  revert prev pos. induction l as [|c l IH]; intros prev pos Hl Hp.
  - cbn [String.append scan String.length]. rewrite rmatch_bol, Hp.
    by rewrite Nat.add_0_r.
  - cbn [String.append scan String.length]. rewrite rmatch_bol, Hp.
    rewrite IH; [| by eapply one_line_tail | by eapply one_line_head].
    do 3 f_equal. lia.
Qed.

(** The number of matches does not depend on where counting starts. *)
Lemma scan_length_pos pat prev s skip pos pos' :
  length (scan pat prev s skip pos) = length (scan pat prev s skip pos').
Proof.
  revert prev skip pos pos'.
  induction s as [|c s IH]; intros prev skip pos pos'.
  - destruct skip; simpl; [|done]. by destruct (rmatch pat prev "" 0 []) as [[]|].
  - destruct skip; simpl; [|apply IH].
    destruct (rmatch pat prev (String c s) 0 []) as [[]|]; simpl;
      [f_equal|]; apply IH.
Qed.

Lemma classify_nonempty var l : classify var l ≠ Open → l ≠ "".
Proof. by intros H ->. Qed.

Section Scan.
Variable var : string.
Hypothesis Hvar : identifier var = true.

Lemma opt_newline_after p rest n :
  rmatch opt_newline p (String nl rest) n [] = Some (S n, []).
Proof. done. Qed.

(** The substitution deletes the lines of kind [Removed], whole, and
    nothing else. *)
Lemma sub_text ls prev :
  plain var ls → at_bol prev = true →
  sub_scan (assign_pattern var ++ opt_newline) "" None prev (text ls) 0
  = text (kept_lines var ls).
Proof using Hvar.
  intros Hls. revert prev.
  induction Hls as [|l ls [Hl Hk] Hls IH]; intros prev Hp.
  - cbn [text sub_scan]. by destruct (rmatch _ prev "" 0 []) as [[]|].
  - assert (l ≠ "") as Hne by by apply classify_nonempty with var.
    unfold kept_lines in *. rewrite filter_cons.
    destruct (classify var l) eqn:Ek; [| |done].
    + (* the line is removed *)
      rewrite decide_False by done. cbn [text].
      destruct l as [|c l]; [done|].
      cbn [String.append sub_scan].
      change (String c (l +:+ String nl (text ls)))
        with (String c l +:+ String nl (text ls)).
      rewrite (match_removed var Hvar opt_newline prev (String c l)
                 (text ls) (S (String.length (String c l)), []));
        [|done|done|done|intros; apply opt_newline_after].
      cbn [String.length fmap option_fmap option_map pred String.append].
      replace (l +:+ String nl (text ls))
        with ((l +:+ String nl "") +:+ text ls)
        by by rewrite append_assoc.
      replace (S (String.length l)) with (String.length (l +:+ String nl ""))
        by (rewrite length_append; simpl; lia).
      rewrite sub_skip, last_char_append. cbn [last_char]. by apply IH.
    + (* the line is kept *)
      rewrite decide_True by done. cbn [text].
      destruct l as [|c l]; [done|].
      cbn [String.append sub_scan].
      change (String c (l +:+ String nl (text ls)))
        with (String c l +:+ String nl (text ls)).
      rewrite (match_kept var Hvar opt_newline prev (String c l)) by done.
      cbn [String.append].
      change (assign_pattern var ++ opt_newline)
        with (ABol :: tl (assign_pattern var ++ opt_newline)).
      rewrite sub_inside;
        [| by eapply one_line_tail | by eapply one_line_head].
      change (ABol :: tl (assign_pattern var ++ opt_newline))
        with (assign_pattern var ++ opt_newline).
      by rewrite IH.
Qed.

Lemma no_match_at_end prev : rmatch (assign_pattern var) prev "" 0 [] = None.
Proof using Hvar.
  unfold assign_pattern. rewrite rmatch_bol, rmatch_star.
  destruct (at_bol prev); [|done]. cbn [star]. rewrite rmatch_lit.
  destruct (identifier_head var Hvar) as (v & vs & -> & _). done.
Qed.

(** [findall] finds one match for each line of kind [Removed]. *)
Lemma count_text ls prev pos :
  plain var ls → at_bol prev = true →
  length (scan (assign_pattern var) prev (text ls) 0 pos)
  = length (removed_lines var ls).
Proof using Hvar.
  intros Hls. revert prev pos.
  induction Hls as [|l ls [Hl Hk] Hls IH]; intros prev pos Hp.
  - cbn [text scan]. by rewrite no_match_at_end.
  - assert (l ≠ "") as Hne by by apply classify_nonempty with var.
    unfold removed_lines in *. rewrite filter_cons.
    destruct l as [|c l]; [done|].
    destruct (classify var (String c l)) eqn:Ek; [| |done].
    + rewrite decide_True by done. cbn [text String.append scan].
      change (String c (l +:+ String nl (text ls)))
        with (String c l +:+ String nl (text ls)).
      rewrite <- (app_nil_r (assign_pattern var)).
      rewrite (match_removed var Hvar [] prev (String c l)
                 (text ls) (String.length (String c l), []));
        [|done|done|done|done].
      rewrite app_nil_r.
      cbn [String.length pred String.append length]. f_equal.
      rewrite scan_skip.
      change (String nl (text ls)) with ("" +:+ String nl (text ls)).
      change (assign_pattern var) with (ABol :: tl (assign_pattern var)).
      rewrite scan_inside; [|done|].
      2:{ apply last_char_line; [by eapply one_line_tail|].
          by eapply one_line_head. }
      apply IH. done.
    + rewrite decide_False by done. cbn [text String.append scan].
      change (String c (l +:+ String nl (text ls)))
        with (String c l +:+ String nl (text ls)).
      rewrite <- (app_nil_r (assign_pattern var)).
      rewrite (match_kept var Hvar [] prev (String c l)) by done.
      rewrite app_nil_r. cbn [String.append].
      change (assign_pattern var) with (ABol :: tl (assign_pattern var)).
      rewrite scan_inside;
        [| by eapply one_line_tail | by eapply one_line_head].
      by apply IH.
Qed.

Lemma kept_all ls :
  plain var ls → removed_lines var ls = [] → kept_lines var ls = ls.
Proof.
  unfold removed_lines, kept_lines.
  induction 1 as [|l ls [Hl Hk] Hls IH]; [done|].
  rewrite !filter_cons.
  destruct (classify var l) eqn:Ek; [| |done].
  - by rewrite decide_True.
  - rewrite decide_False, decide_True by done. intros H. by rewrite IH.
Qed.

(** One turn of the removal loop on a plain file: every line of kind
    [Removed] goes and is counted, every other line stays. *)
Lemma remove_var_plain ls count :
  plain var ls →
  remove_var (text ls, count) var
  = (text (kept_lines var ls), count + length (removed_lines var ls)).
Proof using Hvar.
  intros Hls. unfold remove_var, findall, finditer, sub.
  pose proof (count_text ls None 0 Hls eq_refl) as Hn.
  rewrite <- (length_fmap m_text) in Hn.
  destruct (m_text <$> scan (assign_pattern var) None (text ls) 0 0)
    as [|m ms] eqn:E.
  - simpl in Hn. symmetry in Hn. apply length_zero_iff_nil in Hn.
    rewrite Hn, kept_all by done. simpl. by rewrite Nat.add_0_r.
  - rewrite sub_text by done. by rewrite Hn.
Qed.
End Scan.

End ScanFacts.

(** ** The visitor computes the collections of the tree *)

Module DetectorFacts.
Import Ast Collect.

(** Induction on trees, with the hypothesis for every child. *)
Lemma node_ind' (P : node → Prop) :
  (∀ ps kids, Forall P kids → P (FunctionDef ps kids)) →
  (∀ ps kids, Forall P kids → P (AsyncFunctionDef ps kids)) →
  (∀ l ts v, Forall P ts → P v → P (Assign l ts v)) →
  (∀ id ctx l, P (Name id ctx l)) →
  (∀ kids, Forall P kids → P (Other kids)) →
  ∀ n, P n.
Proof.
  intros Hf Ha Hs Hn Ho. fix IH 1.
  intros [ps kids|ps kids|l ts v|id ctx l|kids].
  - apply Hf. induction kids; constructor; [apply IH|assumption].
  - apply Ha. induction kids; constructor; [apply IH|assumption].
  - apply Hs; [|apply IH].
    induction ts; constructor; [apply IH|assumption].
  - apply Hn.
  - apply Ho. induction kids; constructor; [apply IH|assumption].
Qed.

Lemma detector_eq d1 d2 :
  defined_vars d1 = defined_vars d2 → used_vars d1 = used_vars d2 →
  current_scope_vars d1 = current_scope_vars d2 →
  function_params d1 = function_params d2 → d1 = d2.
Proof. destruct d1, d2; simpl; congruence. Qed.

Lemma absorb_nil d : absorb d [] [] [] = d.
Proof. apply detector_eq; simpl; [done|set_solver|done|set_solver]. Qed.

Lemma absorb_absorb d a1 l1 p1 a2 l2 p2 :
  absorb (absorb d a1 l1 p1) a2 l2 p2
  = absorb d (a1 ++ a2) (l1 ++ l2) (p1 ++ p2).
Proof.
  apply detector_eq; simpl.
  - by rewrite foldl_app.
  - rewrite fmap_app. set_solver.
  - done.
  - set_solver.
Qed.

Lemma add_params_absorb ps d : foldl add_param d ps = absorb d [] [] ps.
Proof.
  revert d. induction ps as [|p ps IH]; intros d; simpl.
  - by rewrite absorb_nil.
  - rewrite IH. apply detector_eq; simpl; [done|done|done|set_solver].
Qed.

Lemma add_targets_absorb l ts d :
  foldl (add_target l) d ts = absorb d (name_targets l ts) [] [].
Proof.
  revert d. induction ts as [|t ts IH]; intros d; simpl.
  - by rewrite absorb_nil.
  - rewrite IH. unfold name_targets. simpl.
    by destruct t.
Qed.

Lemma visit_kids_absorb (kids : list node) :
  Forall (λ k, ∀ d, visit k d
                    = absorb d (all_assigned k) (all_loads k) (all_params k))
    kids →
  ∀ d, foldl (λ d k, visit k d) d kids
       = absorb d (flat_map all_assigned kids) (flat_map all_loads kids)
           (flat_map all_params kids).
Proof.
  induction 1 as [|k kids Hk _ IH]; intros d; simpl.
  - by rewrite absorb_nil.
  - by rewrite Hk, IH, absorb_absorb.
Qed.

(** The stateful visit amounts to collecting, over the whole tree and
    whatever the nesting, the assigned names with their lines, the names
    read and the parameters. *)
Lemma visit_absorb n d :
  visit n d = absorb d (all_assigned n) (all_loads n) (all_params n).
Proof.
  revert d. induction n as [ps kids IH|ps kids IH|l ts v IHts IHv|id ctx l|kids IH]
    using node_ind'; intros d.
  - cbn [visit all_assigned all_loads all_params].
    by rewrite (visit_kids_absorb kids IH), add_params_absorb, absorb_absorb.
  - cbn [visit all_assigned all_loads all_params].
    by rewrite (visit_kids_absorb kids IH), add_params_absorb, absorb_absorb.
  - cbn [visit all_assigned all_loads all_params].
    rewrite IHv, (visit_kids_absorb ts IHts), add_targets_absorb.
    by rewrite !absorb_absorb.
  - destruct ctx; cbn [visit all_assigned all_loads all_params];
      rewrite ?absorb_nil; [|done|done].
    apply detector_eq; simpl; [done|set_solver|done|set_solver].
  - cbn [visit all_assigned all_loads all_params].
    by rewrite (visit_kids_absorb kids IH).
Qed.

(** What [record_line] leaves in [defined_vars]. *)
Lemma recorded_lines (asg : list (string * nat)) (m : gmap string (list nat))
    (id : string) (ln : nat) :
  ln ∈ default [] (foldl record_line m asg !! id)
  ↔ ln ∈ default [] (m !! id) ∨ (id, ln) ∈ asg.
Proof.
  revert m. induction asg as [|[x k] asg IH]; intros m; simpl.
  - set_solver.
  - rewrite IH. unfold record_line at 1. simpl.
    destruct (decide (x = id)) as [->|Hne].
    + rewrite lookup_insert_eq. simpl. rewrite elem_of_app, !elem_of_cons.
      rewrite elem_of_nil. naive_solver.
    + rewrite lookup_insert_ne by done. set_solver.
Qed.

Lemma recorded_dom (asg : list (string * nat)) (m : gmap string (list nat))
    (id : string) :
  id ∈ dom (foldl record_line m asg) ↔ id ∈ dom m ∨ id ∈ asg.*1.
Proof.
  revert m. induction asg as [|[x k] asg IH]; intros m; simpl.
  - set_solver.
  - rewrite IH. unfold record_line at 1. simpl. rewrite dom_insert.
    set_solver.
Qed.

(** The unused set, read off the tree. *)
Lemma unused_spec tree var :
  var ∈ get_unused_variables (visit tree new_detector)
  ↔ var ∈ (all_assigned tree).*1 ∧ (var ∉ (all_loads tree).*1)
    ∧ (var ∉ all_params tree) ∧ startswith_underscore var = false.
Proof.
  unfold get_unused_variables, is_unused.
  rewrite elem_of_filter, visit_absorb. simpl.
  rewrite recorded_dom, dom_empty.
  rewrite !elem_of_union, !elem_of_list_to_set. set_solver.
Qed.

(** Every plain-name target of every assignment of the tree is among
    the assigned names. *)
Lemma target_assigned tree lineno targets value id ctx l :
  Assign lineno targets value ∈ nodes tree →
  Name id ctx l ∈ targets →
  (id, lineno) ∈ all_assigned tree.
Proof.
  intros Hin Ht. revert Hin.
  assert (∀ kids, Forall (λ k, Assign lineno targets value ∈ nodes k →
                               (id, lineno) ∈ all_assigned k) kids →
            Assign lineno targets value ∈ flat_map nodes kids →
            (id, lineno) ∈ flat_map all_assigned kids) as Hkids.
  { intros kids Hall Hin. apply list_elem_of_In, in_flat_map in Hin.
    destruct Hin as (k & Hk & Hin).
    apply list_elem_of_In, in_flat_map. exists k. split; [done|].
    apply list_elem_of_In. rewrite Forall_forall in Hall.
    apply Hall; by apply list_elem_of_In. }
  induction tree as [ps kids IH|ps kids IH|l' ts v IHts IHv|id' ctx' l'|kids IH]
    using node_ind'; cbn [nodes all_assigned]; rewrite elem_of_cons.
  - intros [?|Hin]; [done|]. by apply Hkids.
  - intros [?|Hin]; [done|]. by apply Hkids.
  - rewrite !elem_of_app. intros [Heq|[Hin|Hin]].
    + injection Heq as <- <- <-. left.
      apply list_elem_of_In, in_flat_map. exists (Name id ctx l).
      split; [by apply list_elem_of_In|]. simpl. by left.
    + right; left. by apply Hkids.
    + right; right. by apply IHv.
  - intros [?|Hin]; [done|]. by apply elem_of_nil in Hin.
  - intros [?|Hin]; [done|]. by apply Hkids.
Qed.

(** An assignment without a plain-name target is visited like any other
    node. *)
Lemma visit_tuple_assign lineno targets value d :
  Forall not_name targets →
  visit (Assign lineno targets value) d = visit (Other (targets ++ [value])) d.
Proof.
  intros Hts. cbn [visit]. rewrite foldl_app. simpl. do 2 f_equal.
  clear value. revert d. induction Hts as [|t ts Ht _ IH]; intros d; [done|].
  simpl. rewrite IH. by destruct t.
Qed.

End DetectorFacts.

(** ** The two processing functions *)

Module ScriptFacts.
Import Re Edit Ast Collect Script.

(** A [print] in front of a computation. *)
Lemma print_then {A} h m (k : io A) dk :
  (_ ← print h m; k) dk
  = match stdout h m with
    | Some e => (inl e, dk)
    | None => k dk
    end.
Proof. unfold mbind, io_bind, print. by destruct (stdout h m). Qed.

Lemma print_then_return {A} h m (r : A) dk :
  (_ ← print h m; mret r) dk = (print_return h m r, dk).
Proof. rewrite print_then. unfold print_return. by destruct (stdout h m). Qed.

(** The handler returns (0, 1) once its message is printed, and raises
    what its [print] raises; it leaves the disk alone. *)
Lemma handler_run h filepath e dk :
  handler h filepath e dk = (print_return h (MsgError filepath e) (0, 1), dk).
Proof. apply print_then_return. Qed.

Lemma try_except_run h filepath body dk :
  try_except h filepath body dk
  = match body dk with
    | (inl e, dk') => (print_return h (MsgError filepath e) (0, 1), dk')
    | r => r
    end.
Proof.
  unfold try_except. destruct (body dk) as [[e|q] dk']; [|done].
  apply handler_run.
Qed.

Lemma try_except_disk h filepath body dk :
  (try_except h filepath body dk).2 = (body dk).2.
Proof.
  rewrite try_except_run. by destruct (body dk) as [[e|q] dk'].
Qed.

(** What leaves a call is what the handler's own [print] raised. *)
Lemma try_except_raises h filepath body dk e :
  (try_except h filepath body dk).1 = inl e →
  ∃ e', (body dk).1 = inl e' ∧ stdout h (MsgError filepath e') = Some e.
Proof.
  rewrite try_except_run. destruct (body dk) as [[e'|q] dk']; [|done].
  unfold print_return. simpl. destruct (stdout h _) eqn:E; [|done].
  intros [= <-]. eauto.
Qed.

(** The body of [process_python_file] when the file cannot be read. *)
Lemma python_body_unread h parse iter ft filepath dk :
  ft = ReadFault ∨ dk !! resolve h filepath = None →
  python_body h parse iter ft filepath dk = (inl OSError, dk).
Proof.
  unfold python_body, mbind, io_bind, read_file.
  intros [->|Hnone]; [done|]. rewrite Hnone. by destruct ft.
Qed.

(** The body of [process_python_file] after the read, step by step. *)
Lemma python_body_read h parse iter ft filepath dk content :
  ft ≠ ReadFault →
  dk !! resolve h filepath = Some content →
  python_body h parse iter ft filepath dk
  = match parse (universal_newlines content) with
    | ParseSyntaxError => (print_return h (MsgSyntaxError filepath) (0, 1), dk)
    | ParseOtherError => (inl OtherError, dk)
    | Parsed tree =>
        if deep h tree then (inl RecursionError, dk) else
        if decide (get_unused_variables (visit tree new_detector) = ∅)
        then (inr (0, 0), dk) else
        let '(modified, count) :=
          remove_vars (iter (get_unused_variables (visit tree new_detector)))
            (universal_newlines content) in
        if 0 <? count then
          match ft with
          | OpenWriteFault => (inl OSError, dk)
          | WriteFault written =>
              (inl OSError,
               <[resolve h filepath :=
                   String.substring 0 written
                     (os_newlines (linesep h) modified)]> dk)
          | _ =>
              (print_return h (MsgRemoved count filepath) (count, 0),
               <[resolve h filepath := os_newlines (linesep h) modified]> dk)
          end
        else (inr (0, 0), dk)
    end.
Proof.
  intros Hft Hfile.
  unfold python_body. unfold mbind at 1, io_bind at 1, read_file.
  rewrite Hfile.
  destruct ft; try done;
    (destruct (parse (universal_newlines content)) as [tree| |];
     [|apply print_then_return|done];
     destruct (deep h tree); [done|];
     destruct (decide _); [done|];
     destruct (remove_vars _ _) as [modified count];
     destruct (0 <? count); [|done];
     unfold mbind at 1, io_bind at 1, write_file; try done;
     apply print_then_return).
Qed.

Lemma javascript_body_unread h ft filepath dk :
  ft = ReadFault ∨ dk !! resolve h filepath = None →
  javascript_body h ft filepath dk = (inl OSError, dk).
Proof.
  unfold javascript_body, mbind, io_bind, read_file.
  intros [->|Hnone]; [done|]. rewrite Hnone. by destruct ft.
Qed.

(** The body of [process_javascript_file] after the read. *)
Lemma javascript_body_read h ft filepath dk content :
  ft ≠ ReadFault →
  dk !! resolve h filepath = Some content →
  javascript_body h ft filepath dk
  = let '(modified, count) := remove_decls (universal_newlines content) in
    if 0 <? count then
      match ft with
      | OpenWriteFault => (inl OSError, dk)
      | WriteFault written =>
          (inl OSError,
           <[resolve h filepath :=
               String.substring 0 written
                 (os_newlines (linesep h) modified)]> dk)
      | _ =>
          (print_return h (MsgRemoved count filepath) (count, 0),
           <[resolve h filepath := os_newlines (linesep h) modified]> dk)
      end
    else (inr (0, 0), dk).
Proof.
  intros Hft Hfile.
  unfold javascript_body. unfold mbind at 1, io_bind at 1, read_file.
  rewrite Hfile.
  destruct ft; try done;
    (destruct (remove_decls _) as [modified count];
     destruct (0 <? count); [|done];
     unfold mbind at 1, io_bind at 1, write_file; try done;
     apply print_then_return).
Qed.

(** What [print(m); return r] returns, when it returns. *)
Lemma print_return_inr {A} h m (r q : A) :
  print_return h m r = inr q → q = r.
Proof. unfold print_return. destruct (stdout h m); congruence. Qed.

(** The pairs a body can return have an error count of 0 or 1, and a
    pair with an error removes nothing. *)
Lemma python_body_errors h parse iter ft filepath dk removed errors :
  (python_body h parse iter ft filepath dk).1 = inr (removed, errors) →
  errors = 0 ∨ (errors = 1 ∧ removed = 0).
Proof.
  destruct (decide (ft = ReadFault)) as [->|Hft];
    [by rewrite python_body_unread by by left|].
  destruct (dk !! resolve h filepath) as [content|] eqn:Hfile;
    [|by rewrite python_body_unread by by right].
  rewrite (python_body_read _ _ _ _ _ _ content) by done.
  destruct (parse _) as [tree| |];
    [|intros [= -> ->]%print_return_inr; auto|done].
  destruct (deep h tree); [done|].
  destruct (decide _); [naive_solver|].
  destruct (remove_vars _ _) as [modified count].
  destruct (0 <? count); [|naive_solver].
  destruct ft; try done; intros [= -> ->]%print_return_inr; auto.
Qed.

Lemma javascript_body_errors h ft filepath dk removed errors :
  (javascript_body h ft filepath dk).1 = inr (removed, errors) →
  errors = 0 ∨ (errors = 1 ∧ removed = 0).
Proof.
  destruct (decide (ft = ReadFault)) as [->|Hft];
    [by rewrite javascript_body_unread by by left|].
  destruct (dk !! resolve h filepath) as [content|] eqn:Hfile;
    [|by rewrite javascript_body_unread by by right].
  rewrite (javascript_body_read _ _ _ _ content) by done.
  destruct (remove_decls _) as [modified count].
  destruct (0 <? count); [|naive_solver].
  destruct ft; try done; intros [= -> ->]%print_return_inr; auto.
Qed.



(** Declarations whose name occurs more or less than once stay. *)
Lemma remove_decl_none content count ms :
  Forall (λ m, length (findall (usage_pattern (group m 3)) content) ≠ 1) ms →
  fold_left remove_decl ms (content, count) = (content, count).
Proof.
  induction 1 as [|m ms Hm _ IH]; cbn [fold_left]; [done|].
  apply Nat.eqb_neq in Hm. unfold remove_decl at 2.
  cbv beta iota zeta. by rewrite Hm.
Qed.

(** Names whose pattern finds nothing leave the text as it is. *)
Lemma remove_var_none content count vars :
  Forall (λ var, findall (assign_pattern var) content = []) vars →
  fold_left remove_var vars (content, count) = (content, count).
Proof.
  induction 1 as [|var vars Hvar _ IH]; cbn [fold_left]; [done|].
  unfold remove_var at 2. by rewrite Hvar.
Qed.

End ScriptFacts.

(* ===================================================================== *)
(** * The claims *)
(* ===================================================================== *)

Module Claims.
Import Re Edit Ast Collect Lines Script Files.
Import TextFacts MatchFacts ScanFacts DetectorFacts ScriptFacts.

(** *** C1: what a failed I/O step leaves on the disk *)




(** *** C9: a file that does not parse *)

(** C9.  When the text read from the file is not valid Python,
    [process_python_file] leaves the disk as it was, whatever the
    patterns would have matched in the text, and returns (0, 1): after
    its own message, or, should [print] raise on that one, after the
    message of the handler.  (Should [print] raise on both, the second
    exception leaves the call.) *)
Theorem syntax_error_skips_file h parse iter ft filepath dk content :
  dk !! resolve h filepath = Some content →
  ft ≠ ReadFault →
  parse (universal_newlines content) = ParseSyntaxError →
  process_python_file h parse iter ft filepath dk
  = (match stdout h (MsgSyntaxError filepath) with
     | None => inr (0, 1)
     | Some e => print_return h (MsgError filepath e) (0, 1)
     end, dk).
Proof.
  intros Hfile Hft Hparse. unfold process_python_file.
  rewrite try_except_run, (python_body_read _ _ _ _ _ _ content) by done.
  rewrite Hparse. unfold print_return at 1.
  by destruct (stdout h (MsgSyntaxError filepath)).
Qed.

(** A file with an unclosed parenthesis. *)
Lemma syntax_error_skips_file_witness :
  process_python_file posix (parse_table []) elements NoFault path
    {[path := broken]}
  = (inr (0, 1), {[path := broken]}).
Proof.
  apply (syntax_error_skips_file posix (parse_table []) elements NoFault path
           {[path := broken]} broken).
  - vm_compute. reflexivity.
  - discriminate.
  - reflexivity.
Defined.

(** *** C10: what leaves a call *)

(** C10, as stated, fails.  The handler of both functions prints before
    it returns (l.106, l.154), and its message holds a character outside
    ASCII.  On a path that names no file, with a standard output that
    encodes to ASCII, [open] raises, the handler is entered, its [print]
    raises [UnicodeEncodeError], and that exception leaves the call. *)
Lemma handler_print_raises :
  (process_python_file ascii_console (parse_table []) elements NoFault path ∅).1
  = inl UnicodeEncodeError
  ∧ (process_javascript_file ascii_console NoFault js_path ∅).1
    = inl UnicodeEncodeError.
Proof. split; vm_compute; reflexivity. Qed.

(** C10, amended.  Whatever is raised while the file is processed (by the
    read, the parser, the walk of the tree, the write, or a [print] of
    the body) is caught by the handler, which prints its message and
    returns (0, 1).  So, when the messages of the handler are printed, a
    call returns a pair.  The only exception that can leave a call is
    the one that the [print] of the handler itself raises; and the error
    count of a returned pair is never greater than 1. *)
Theorem exceptions_caught_up_to_print h parse iter ft filepath dk :
  let caught (call body : (exn + nat * nat) * disk) : Prop :=
    (∀ e, body.1 = inl e →
       stdout h (MsgError filepath e) = None → call.1 = inr (0, 1))
    ∧ ((∀ e, stdout h (MsgError filepath e) = None) →
       ∃ removed errors, call.1 = inr (removed, errors))
    ∧ (∀ e, call.1 = inl e →
         ∃ e', body.1 = inl e' ∧ stdout h (MsgError filepath e') = Some e)
    ∧ (∀ removed errors, call.1 = inr (removed, errors) → errors ≤ 1) in
  caught (process_python_file h parse iter ft filepath dk)
    (python_body h parse iter ft filepath dk)
  ∧ caught (process_javascript_file h ft filepath dk)
      (javascript_body h ft filepath dk).
Proof.
  intros caught.
  assert (∀ body : io (nat * nat),
            (∀ removed errors, (body dk).1 = inr (removed, errors) →
               errors = 0 ∨ (errors = 1 ∧ removed = 0)) →
            caught (try_except h filepath body dk) (body dk)) as Hcall.
  { intros body Hbody. unfold caught.
    pose proof (try_except_raises h filepath body dk) as Hraise.
    rewrite try_except_run in *.
    destruct (body dk) as [[e|[removed errors]] dk'] eqn:E; simpl in *.
    - unfold print_return in *. split_and!.
      + intros e' [= <-] Hprint. by rewrite Hprint.
      + intros Hprint. rewrite Hprint. eauto.
      + exact Hraise.
      + intros removed errors. destruct (stdout h _); [done|].
        intros [= <- <-]. lia.
    - split_and!; [done|eauto|done|].
      intros removed' errors' [= <- <-].
      destruct (Hbody removed errors eq_refl) as [->|[-> ->]]; lia. }
  split; apply Hcall; intros removed errors.
  - apply python_body_errors.
  - apply javascript_body_errors.
Qed.

(** The read fails on a host that prints every message: the body raises,
    the call returns (0, 1). *)
Lemma exceptions_caught_up_to_print_witness :
  (process_python_file posix (parse_table []) elements ReadFault path ∅).1
  = inr (0, 1).
Proof.
  apply (proj1 (proj1 (exceptions_caught_up_to_print posix (parse_table [])
                         elements ReadFault path ∅)) OSError);
    reflexivity.
Defined.

(** *** C4: running twice *)

(** C4, as stated, fails in both modes.  In [a = 1] / [b = a] the name
    [a] is read, by the assignment to [b] only: the first run removes the
    line of [b], and the second run, on the output of the first, removes
    the line of [a]. *)
Lemma second_run_removes_more :
  let parse := parse_table [(cascade, cascade_tree);
                            (cascade_out, cascade_out_tree)] in
  let py1 := process_python_file posix parse elements NoFault path
               {[path := cascade]} in
  let py2 := process_python_file posix parse elements NoFault path py1.2 in
  let js1 := process_javascript_file posix NoFault js_path
               {[js_path := js_cascade]} in
  let js2 := process_javascript_file posix NoFault js_path js1.2 in
  py1 = (inr (1, 0), {[path := cascade_out]})
  ∧ py2 = (inr (1, 0), {[path := ""]})
  ∧ js1 = (inr (1, 0), {[js_path := js_cascade_out]})
  ∧ js2 = (inr (1, 0), {[js_path := ""]}).
Proof. intros. split_and!; vm_compute; exact eq_refl. Qed.

(** C4, amended.  A run on a file without dead bindings is a no-op.  In
    the Python mode: when the text parses, the walk of its tree stays
    within the recursion limit, and the unused set of the detector is
    empty, or holds only names whose pattern finds no line in the text.
    In the other mode: when no matched declaration has a name that
    occurs exactly once in the file.  Then the call returns (0, 0) and
    the disk is unchanged. *)
Theorem no_dead_no_change h parse iter ft filepath dk content :
  dk !! resolve h filepath = Some content →
  ft ≠ ReadFault →
  ((∃ tree,
      parse (universal_newlines content) = Parsed tree
      ∧ deep h tree = false
      ∧ (get_unused_variables (visit tree new_detector) = ∅
         ∨ Forall (λ var, findall (assign_pattern var)
                            (universal_newlines content) = [])
             (iter (get_unused_variables (visit tree new_detector))))) →
   process_python_file h parse iter ft filepath dk = (inr (0, 0), dk))
  ∧ (Forall (λ m, length (findall (usage_pattern (group m 3))
                            (universal_newlines content)) ≠ 1)
       (finditer var_pattern (universal_newlines content)) →
     process_javascript_file h ft filepath dk = (inr (0, 0), dk)).
Proof.
  intros Hfile Hft. split.
  - intros (tree & Hparse & Hdeep & Hnone).
    unfold process_python_file.
    rewrite try_except_run, (python_body_read _ _ _ _ _ _ content) by done.
    rewrite Hparse, Hdeep.
    destruct (decide _) as [|Hsome]; [done|].
    destruct Hnone as [?|Hnone]; [done|].
    unfold remove_vars. by rewrite remove_var_none.
  - intros Hall. unfold process_javascript_file.
    rewrite try_except_run, (javascript_body_read _ _ _ _ content) by done.
    unfold remove_decls. by rewrite remove_decl_none.
Qed.

(** Scenario A of the specification, and a declaration that is used:
    nothing is dead, nothing changes. *)
Lemma no_dead_no_change_witness :
  process_python_file posix (parse_table [(scenario_a, scenario_a_tree)])
    elements NoFault path {[path := scenario_a]}
  = (inr (0, 0), {[path := scenario_a]})
  ∧ process_javascript_file posix NoFault js_path {[js_path := js_used]}
    = (inr (0, 0), {[js_path := js_used]}).
Proof.
  split.
  - refine (proj1 (no_dead_no_change posix
                     (parse_table [(scenario_a, scenario_a_tree)]) elements
                     NoFault path {[path := scenario_a]} scenario_a _ _) _).
    + vm_compute. reflexivity.
    + discriminate.
    + exists scenario_a_tree.
      split_and!; [vm_compute; reflexivity|reflexivity|].
      left. vm_compute. reflexivity.
  - refine (proj2 (no_dead_no_change posix (parse_table []) elements NoFault
                     js_path {[js_path := js_used]} js_used _ _) _).
    + vm_compute. reflexivity.
    + discriminate.
    + apply (bool_decide_unpack _). vm_compute. exact I.
Defined.

(** *** C5: which bindings are dead *)

(** C5, as stated, fails.  [y] is assigned in the function [f] and read
    only in the sibling function [g]: no read of [y] occurs in the scope
    of the binding or below it, so the contract calls the binding dead,
    and the detector does not. *)
Lemma sibling_read_keeps_binding :
  y_in_f ∈ Spec.bindings siblings_tree
  ∧ Spec.spec_dead y_in_f = true
  ∧ "y" ∉ get_unused_variables (visit siblings_tree new_detector).
Proof.
  split_and!.
  - apply list_elem_of_In. vm_compute. left. reflexivity.
  - vm_compute. reflexivity.
  - rewrite unused_spec. intros (_ & Hread & _). apply Hread.
    vm_compute. apply list_elem_of_In. left. reflexivity.
Qed.

(** C5, amended.  A name is classified dead exactly when it is the
    plain-name target of some assignment of the file, no [Load] reference
    to it occurs anywhere in the file (in any scope, before or after the
    assignment), it is not a positional parameter of any function of the
    file, and it does not start with an underscore. *)
Theorem dead_iff_unread_anywhere tree var :
  var ∈ get_unused_variables (visit tree new_detector)
  ↔ var ∈ (all_assigned tree).*1 ∧ (var ∉ (all_loads tree).*1)
    ∧ (var ∉ all_params tree) ∧ startswith_underscore var = false.
Proof. apply unused_spec. Qed.

(** *** C6: a name assigned several times *)

(** C6, as stated, fails.  With [x = 1] / [x = 2] and [x] never read,
    the detector holds both lines for [x], the run removes both and
    counts 2; removing only the last assignment line would leave
    [x = 1] in the file. *)
Lemma earlier_assignment_removed :
  let r := process_python_file posix
             (parse_table [(text twice, twice_tree)])
             elements NoFault path {[path := text twice]} in
  defined_vars (visit twice_tree new_detector) !! "x" = Some [1; 2]
  ∧ r = (inr (2, 0), {[path := ""]})
  ∧ r.2 !! path ≠ Some (text (Spec.delete_span 2 2 twice)).
Proof.
  intros. split_and!; vm_compute; [exact eq_refl|exact eq_refl|discriminate].
Qed.

(** C6, amended.  Every assignment of a name counts, not the last one
    only: the detector records the line of each assignment to the name,
    and on a plain file one turn of the removal loop deletes every line
    that assigns the name, counts each of them, and keeps every other
    line. *)
Theorem every_assignment_line_removed var ls count tree ln :
  identifier var = true →
  plain var ls →
  remove_var (text ls, count) var
  = (text (kept_lines var ls), count + length (removed_lines var ls))
  ∧ (ln ∈ default [] (defined_vars (visit tree new_detector) !! var)
     ↔ (var, ln) ∈ all_assigned tree).
Proof.
  intros Hvar Hls. split; [by apply remove_var_plain|].
  rewrite visit_absorb. simpl. rewrite recorded_lines, lookup_empty. simpl.
  rewrite elem_of_nil. naive_solver.
Qed.

(** Two assignments to [x]: both lines go, both are recorded. *)
Lemma every_assignment_line_removed_witness :
  remove_var (text twice, 0) "x" = ("", 2)
  ∧ (1 ∈ default [] (defined_vars (visit twice_tree new_detector) !! "x")
     ↔ ("x", 1) ∈ all_assigned twice_tree).
Proof.
  apply (every_assignment_line_removed "x" twice 0 twice_tree 1).
  - reflexivity.
  - repeat constructor; discriminate.
Defined.

(** *** C7: an assignment over several physical lines *)

(** C7: the input on which the script breaks the claim.  The list
    display assigned to [y] spans the lines 1 to 3 and [y] is never read.
    The pattern of l.90, meant for an assignment [var_name = value],
    ends at the first line end: the run removes line 1 only, reports one
    removal, and writes back the two continuation lines, where deleting
    the span 1..3 would leave nothing. *)
Theorem continuation_lines_left :
  let r := process_python_file posix
             (parse_table [(text multiline, multiline_tree)])
             elements NoFault path {[path := text multiline]} in
  elements (get_unused_variables (visit multiline_tree new_detector)) = ["y"]
  ∧ r = (inr (1, 0), {[path := text ["    1,"; "]"]]})
  ∧ r.2 !! path ≠ Some (text (Spec.delete_span 1 3 multiline)).
Proof.
  intros. split_and!; vm_compute; [exact eq_refl|exact eq_refl|discriminate].
Qed.

(** *** C8: several targets, tuple targets *)

(** C8, as stated, fails.  In [x = y = 1], with nothing read, both
    targets are classified unused, and the declaration is removed, in
    whichever order the two names are taken. *)
Lemma chained_targets_removed :
  let parse := parse_table [(text chained_unread, chained_unread_tree)] in
  let dk : disk := {[path := text chained_unread]} in
  "x" ∈ get_unused_variables (visit chained_unread_tree new_detector)
  ∧ "y" ∈ get_unused_variables (visit chained_unread_tree new_detector)
  ∧ process_python_file posix parse (λ _, ["x"; "y"]) NoFault path dk
    = (inr (1, 0), {[path := ""]})
  ∧ process_python_file posix parse (λ _, ["y"; "x"]) NoFault path dk
    = (inr (1, 0), {[path := ""]}).
Proof.
  split_and!.
  - apply unused_spec. vm_compute.
    split_and!; [apply list_elem_of_In; by left|by inversion 1|
                 by inversion 1|done].
  - apply unused_spec. vm_compute.
    split_and!; [apply list_elem_of_In; right; by left|by inversion 1|
                 by inversion 1|done].
  - vm_compute. reflexivity.
  - vm_compute. reflexivity.
Qed.

(** C8, amended.  Every plain-name target of every assignment, with one
    target or several, is recorded with the line of the statement, and is
    classified like any other name: dead exactly when it is not read, not
    a parameter and not marked by an underscore.  An assignment none of
    whose targets is a plain name (a tuple, for instance) records nothing
    of its own: it is visited like any other node. *)
Theorem name_targets_recorded :
  (∀ tree lineno targets value id ctx l,
     Assign lineno targets value ∈ nodes tree →
     Name id ctx l ∈ targets →
     lineno ∈ default [] (defined_vars (visit tree new_detector) !! id)
     ∧ (id ∈ get_unused_variables (visit tree new_detector)
        ↔ (id ∉ (all_loads tree).*1) ∧ (id ∉ all_params tree)
          ∧ startswith_underscore id = false))
  ∧ (∀ lineno targets value d,
       Forall not_name targets →
       visit (Assign lineno targets value) d
       = visit (Other (targets ++ [value])) d).
Proof.
  split.
  - intros tree lineno targets value id ctx l Hin Ht.
    pose proof (target_assigned _ _ _ _ _ _ _ Hin Ht) as Hasg.
    split.
    + rewrite visit_absorb. simpl. rewrite recorded_lines. by right.
    + rewrite unused_spec. split; [naive_solver|].
      intros H. split; [|done].
      apply list_elem_of_fmap. by exists (id, lineno).
  - intros. by apply visit_tuple_assign.
Qed.

(** The second target of [x = y = 1], and the tuple [a, b = 1, 2]. *)
Lemma name_targets_recorded_witness :
  1 ∈ default [] (defined_vars (visit chained_unread_tree new_detector) !! "y")
  ∧ visit tuple_assign new_detector
    = visit (Other [Other [Name "a" Store 1; Name "b" Store 1];
                    Other [leaf; leaf]]) new_detector.
Proof.
  split.
  - apply (proj1 name_targets_recorded chained_unread_tree 1
             [Name "x" Store 1; Name "y" Store 1] leaf "y" Store 1).
    + apply list_elem_of_In. vm_compute. right. left. reflexivity.
    + apply list_elem_of_In. right. left. reflexivity.
  - apply (proj2 name_targets_recorded 1
             [Other [Name "a" Store 1; Name "b" Store 1]]
             (Other [leaf; leaf]) new_detector).
    repeat constructor.
Defined.

(** *** C2: reads that no longer resolve *)

(** C2: the input on which the script breaks the claim.  In
    [y = x = 1] / [print(x)] only [y] is unused; [x] is read and is not
    in the unused set.  The pattern of [y] deletes the whole first line,
    and with it the only assignment to [x]: the file written back is
    [print(x)], whose tree reads [x] and assigns nothing. *)
Theorem chained_read_left_dangling :
  let parse := parse_table [(chained, chained_tree);
                            (chained_out, chained_out_tree)] in
  elements (get_unused_variables (visit chained_tree new_detector)) = ["y"]
  ∧ "x" ∈ (all_loads chained_tree).*1
  ∧ process_python_file posix parse elements NoFault path {[path := chained]}
    = (inr (1, 0), {[path := chained_out]})
  ∧ parse chained_out = Parsed chained_out_tree
  ∧ "x" ∈ (all_loads chained_out_tree).*1
  ∧ all_assigned chained_out_tree = [].
Proof.
  split_and!; try (vm_compute; reflexivity);
    apply list_elem_of_In; vm_compute; right; left; reflexivity.
Qed.

(** *** C3: names marked by an underscore *)

(** C3: the input on which the script breaks the claim.  The file
    [const _tmp = compute();] declares a marked name that is never read;
    [process_javascript_file] removes the declaration and reports one
    removal, where [get_unused_variables] skips such names. *)
Theorem js_marker_removed :
  process_javascript_file posix NoFault js_path {[js_path := js_marker]}
  = (inr (1, 0), {[js_path := ""]})
  ∧ ∀ tree, "_tmp" ∉ get_unused_variables (visit tree new_detector).
Proof.
  split; [vm_compute; reflexivity|].
  intros tree. rewrite unused_spec. by intros (_ & _ & _ & ?).
Qed.

End Claims.

(* ===================================================================== *)
(** * Further properties of the script *)
(* ===================================================================== *)

(** ** The substitutions only delete *)

Module DeleteFacts.
Import Re Edit Ast Collect Lines Script Names.
Import TextFacts ScriptFacts.

Lemma chars_cons c s : chars (String c s) = c :: chars s.
Proof. done. Qed.

(** With an empty replacement, [re.sub] returns a subsequence of its
    input, whatever the pattern and the count. *)
Lemma sub_scan_sublist pat limit prev s skip :
  sublist (chars (sub_scan pat "" limit prev s skip)) (chars s).
Proof.
  revert limit prev skip.
  induction s as [|c s IH]; intros limit prev skip.
  - destruct skip; cbn [sub_scan]; [|done].
    destruct limit as [[|n]|]; [done| |];
      by destruct (rmatch pat prev "" 0 []) as [[len ms]|].
  - destruct skip as [|k]; cbn [sub_scan].
    + assert (∀ limit',
                sublist
                  (chars match rmatch pat prev (String c s) 0 [] with
                         | Some (len, _) =>
                             "" +:+
                             match len with
                             | 0 => String c (sub_scan pat "" (pred <$> limit')
                                               (Some c) s 0)
                             | S k => sub_scan pat "" (pred <$> limit')
                                        (Some c) s k
                             end
                         | None => String c (sub_scan pat "" limit' (Some c) s 0)
                         end)
                  (chars (String c s))) as Hstep.
      { intros limit'.
        destruct (rmatch pat prev (String c s) 0 []) as [[[|k] ms]|];
          cbn [String.append]; rewrite ?chars_cons.
        - apply sublist_skip, IH.
        - apply sublist_cons, IH.
        - apply sublist_skip, IH. }
      destruct limit as [[|n]|]; [done|apply Hstep|apply Hstep].
    + rewrite chars_cons. apply sublist_cons, IH.
Qed.

Lemma sub_sublist pat s count : sublist (chars (sub pat "" s count)) (chars s).
Proof. apply sub_scan_sublist. Qed.

Lemma remove_var_sublist acc var :
  sublist (chars (remove_var acc var).1) (chars acc.1).
Proof.
  destruct acc as [content count]. unfold remove_var.
  destruct (findall (assign_pattern var) content); [done|].
  apply sub_sublist.
Qed.

Lemma remove_vars_sublist vars content :
  sublist (chars (remove_vars vars content).1) (chars content).
Proof.
  unfold remove_vars.
  assert (∀ acc, sublist (chars (fold_left remove_var vars acc).1)
                   (chars acc.1)) as H; [|apply (H (content, 0))].
  induction vars as [|v vars IH]; intros acc; [done|].
  simpl. etrans; [apply IH|apply remove_var_sublist].
Qed.

Lemma remove_decl_sublist acc m :
  sublist (chars (remove_decl acc m).1) (chars acc.1).
Proof.
  destruct acc as [content count]. unfold remove_decl.
  destruct (_ =? 1); [|done]. apply sub_sublist.
Qed.

Lemma remove_decls_sublist content :
  sublist (chars (remove_decls content).1) (chars content).
Proof.
  unfold remove_decls. generalize (finditer var_pattern content) as ms.
  assert (∀ ms acc, sublist (chars (fold_left remove_decl ms acc).1)
                      (chars acc.1)) as H; [|intros ms; apply (H ms (content, 0))].
  induction ms as [|m ms IH]; intros acc; [done|].
  simpl. etrans; [apply IH|apply remove_decl_sublist].
Qed.

(** The part of a text already written is a prefix of it. *)
Lemma written_sublist written data :
  sublist (chars (String.substring 0 written data)) (chars data).
Proof.
  revert written. induction data as [|c data IH]; intros [|n]; simpl;
    try done.
  - apply sublist_nil_l.
  - apply sublist_skip, IH.
Qed.

(** What is read holds no carriage return. *)
Lemma translate_in_no_cr after_cr s : cr ∉ chars (translate_in after_cr s).
Proof.
  revert after_cr. induction s as [|c s IH]; intros after_cr; cbn [translate_in].
  - apply not_elem_of_nil.
  - destruct (Ascii.eqb_spec c cr) as [->|Hcr].
    { rewrite chars_cons. apply not_elem_of_cons. split; [done|apply IH]. }
    destruct (Ascii.eqb c nl), after_cr; rewrite ?chars_cons;
      try apply IH; apply not_elem_of_cons; (split; [done|apply IH]).
Qed.

(** A text without carriage return that is written, wholly or in part,
    and read again: what is read is the part that was written. *)
Lemma read_written sep m written :
  cr ∉ chars m →
  sublist
    (chars (universal_newlines
              (String.substring 0 written (os_newlines sep m))))
    (chars m).
Proof.
  unfold universal_newlines. revert written.
  induction m as [|c m IH]; intros written Hm.
  - by destruct written.
  - rewrite chars_cons in Hm. apply not_elem_of_cons in Hm as [Hc Hm].
    cbn [os_newlines]. destruct (Ascii.eqb_spec c nl) as [->|Hnl].
    + destruct sep.
      * destruct written as [|w]; [apply sublist_nil_l|].
        cbn. apply sublist_skip, IH, Hm.
      * destruct written as [|[|w]]; [apply sublist_nil_l| |].
        -- cbn. apply sublist_skip, sublist_nil_l.
        -- cbn. apply sublist_skip, IH, Hm.
    + destruct written as [|w]; [apply sublist_nil_l|].
      cbn [String.substring translate_in].
      destruct (Ascii.eqb_spec c cr) as [->|_]; [done|].
      destruct (Ascii.eqb_spec c nl) as [->|_]; [done|].
      rewrite chars_cons. apply sublist_skip, IH, Hm.
Qed.

Lemma read_back sep m :
  cr ∉ chars m → universal_newlines (os_newlines sep m) = m.
Proof.
  unfold universal_newlines. induction m as [|c m IH]; intros Hm; [done|].
  rewrite chars_cons in Hm. apply not_elem_of_cons in Hm as [Hc Hm].
  cbn [os_newlines]. destruct (Ascii.eqb_spec c nl) as [->|Hnl].
  - destruct sep; cbn; by rewrite IH.
  - cbn [translate_in].
    destruct (Ascii.eqb_spec c cr) as [->|_]; [done|].
    destruct (Ascii.eqb_spec c nl) as [->|_]; [done|]. by rewrite IH.
Qed.

Lemma os_newlines_lf s : os_newlines LF s = s.
Proof.
  induction s as [|c s IH]; [done|]. cbn [os_newlines]. rewrite IH.
  by destruct (Ascii.eqb_spec c nl) as [->|].
Qed.

(** What the script writes, read again by Python, is a subsequence of
    what Python read before, if the text written is one. *)
Lemma rewritten_sublist sep content modified data :
  sublist (chars modified) (chars (universal_newlines content)) →
  data = os_newlines sep modified
  ∨ (∃ written, data = String.substring 0 written (os_newlines sep modified)) →
  sublist (chars (universal_newlines data))
    (chars (universal_newlines content)).
Proof.
  intros Hsub Hdata.
  assert (cr ∉ chars modified) as Hcr.
  { intros Hin. eapply translate_in_no_cr, elem_of_sublist; done. }
  destruct Hdata as [->|[written ->]].
  - by rewrite read_back.
  - etrans; [by apply read_written|done].
Qed.

End DeleteFacts.

(** ** One call, seen from its caller *)

Module CallFacts.
Import Re Edit Ast Collect Lines Script Names.
Import TextFacts ScriptFacts DeleteFacts.

Lemma insert_present_dom (dk : disk) (k v w : string) :
  dk !! k = Some v → dom (<[k := w]> dk) = dom dk.
Proof.
  intros Hk. rewrite dom_insert_L.
  apply elem_of_dom_2 in Hk. set_solver.
Qed.

(** A body either settles without a write, or comes to its write with a
    text [modified] that [loop content modified count] describes.  What
    the caller of the function can then rely on. *)
Lemma call_spec h ft filepath dk (body : io (nat * nat))
    (loop : string → string → nat → Prop) :
  ((body dk).2 = dk
   ∧ (∀ removed errors,
        (body dk).1 = inr (removed, errors) → removed = 0 ∧ errors ≤ 1)
   ∧ (dk !! resolve h filepath = None → (body dk).1 = inl OSError))
  ∨ (∃ content modified count,
       dk !! resolve h filepath = Some content
       ∧ loop content modified count
       ∧ sublist (chars modified) (chars (universal_newlines content))
       ∧ 0 < count
       ∧ body dk
         = match ft with
           | WriteFault written =>
               (inl OSError,
                <[resolve h filepath :=
                    String.substring 0 written
                      (os_newlines (linesep h) modified)]> dk)
           | _ =>
               (print_return h (MsgRemoved count filepath) (count, 0),
                <[resolve h filepath := os_newlines (linesep h) modified]> dk)
           end) →
  ∃ res dk',
    try_except h filepath body dk = (res, dk')
    ∧ dom dk' = dom dk
    ∧ (∀ f, f ≠ resolve h filepath → dk' !! f = dk !! f)
    ∧ (dk !! resolve h filepath = None →
       dk' = dk
       ∧ res = print_return h (MsgError filepath OSError) (0, 1))
    ∧ (∀ content, dk !! resolve h filepath = Some content →
         ∃ content', dk' !! resolve h filepath = Some content'
                     ∧ sublist (chars (universal_newlines content'))
                         (chars (universal_newlines content)))
    ∧ (∀ e, res = inl e → ∃ e', stdout h (MsgError filepath e') = Some e)
    ∧ (∀ removed errors, res = inr (removed, errors) →
         errors ≤ 1
         ∧ (errors = 0 →
            (removed = 0 ∧ dk' = dk)
            ∨ (0 < removed
               ∧ ∃ content modified,
                   dk !! resolve h filepath = Some content
                   ∧ loop content modified removed
                   ∧ dk' = <[resolve h filepath :=
                               os_newlines (linesep h) modified]> dk))).
Proof.
  intros Hbody.
  pose proof (try_except_raises h filepath body dk) as Hraise.
  pose proof (try_except_disk h filepath body dk) as Hdisk.
  destruct (try_except h filepath body dk) as [res dk'] eqn:Hcall.
  simpl in Hraise, Hdisk. exists res, dk'. split; [done|].
  assert (∀ e, res = inl e → ∃ e', stdout h (MsgError filepath e') = Some e)
    as Hleaves.
  { intros e ->. destruct (Hraise e eq_refl) as (e' & _ & ?). eauto. }
  rewrite try_except_run in Hcall.
  destruct Hbody
    as [(Hsame & Hret & Hmiss)
       |(content & modified & count & Hfile & Hloop & Hsub & Hcount & Hrun)].
  - rewrite Hsame in Hdisk. subst dk'. split_and!; try done.
    + intros Hnone. split; [done|]. specialize (Hmiss Hnone).
      destruct (body dk) as [[e|q] dk1]; simpl in Hmiss; [|done].
      injection Hmiss as ->. by injection Hcall as <- _.
    + intros c Hc. by exists c.
    + intros removed errors ->.
      destruct (body dk) as [[e|[removed' errors']] dk1].
      * injection Hcall as [= -> ->]%print_return_inr _.
        split; [lia|done].
      * injection Hcall as <- <- _.
        destruct (Hret _ _ eq_refl) as [-> ?]. split; [done|]. by left.
  - rewrite Hrun in Hdisk, Hcall.
    assert (dk' = <[resolve h filepath :=
                      match ft with
                      | WriteFault written =>
                          String.substring 0 written
                            (os_newlines (linesep h) modified)
                      | _ => os_newlines (linesep h) modified
                      end]> dk) as Hdk'
      by (subst dk'; by destruct ft).
    clear Hdisk. split_and!; try done.
    + rewrite Hdk'. by eapply insert_present_dom.
    + intros f Hf. by rewrite Hdk', lookup_insert_ne.
    + by rewrite Hfile.
    + intros c Hc. rewrite Hfile in Hc. injection Hc as <-.
      rewrite Hdk', lookup_insert_eq. eexists. split; [done|].
      eapply rewritten_sublist; [exact Hsub|].
      destruct ft; eauto.
    + intros removed errors ->.
      destruct ft as [| | |written].
      1-3: (destruct (print_return h (MsgRemoved count filepath) (count, 0))
              as [e|q] eqn:Eq;
            [injection Hcall as [= -> ->]%print_return_inr _;
             split; [lia|done]
            |apply print_return_inr in Eq as ->;
             injection Hcall as <- <- _; split; [lia|]; intros _; right;
             split; [done|]; by exists content, modified]).
      injection Hcall as [= -> ->]%print_return_inr _. split; [lia|done].
Qed.

(** The body of [process_python_file] settles or comes to its write. *)
Lemma python_body_spec h parse iter ft filepath dk :
  let b := python_body h parse iter ft filepath dk in
  (b.2 = dk
   ∧ (∀ removed errors, b.1 = inr (removed, errors) → removed = 0 ∧ errors ≤ 1)
   ∧ (dk !! resolve h filepath = None → b.1 = inl OSError))
  ∨ (∃ content modified count,
       dk !! resolve h filepath = Some content
       ∧ (∃ tree,
            parse (universal_newlines content) = Parsed tree
            ∧ remove_vars
                (iter (get_unused_variables (visit tree new_detector)))
                (universal_newlines content)
              = (modified, count))
       ∧ sublist (chars modified) (chars (universal_newlines content))
       ∧ 0 < count
       ∧ b = match ft with
             | WriteFault written =>
                 (inl OSError,
                  <[resolve h filepath :=
                      String.substring 0 written
                        (os_newlines (linesep h) modified)]> dk)
             | _ =>
                 (print_return h (MsgRemoved count filepath) (count, 0),
                  <[resolve h filepath :=
                      os_newlines (linesep h) modified]> dk)
             end).
Proof.
  intros b. subst b.
  destruct (decide (ft = ReadFault)) as [->|Hft];
    [left; by rewrite python_body_unread by by left|].
  destruct (dk !! resolve h filepath) as [content|] eqn:Hfile;
    [|left; by rewrite python_body_unread by by right].
  rewrite (python_body_read _ _ _ _ _ _ content) by done.
  destruct (parse _) as [tree| |] eqn:Hparse;
    [|left; split_and!; [done| |done];
      intros ? ? [= -> ->]%print_return_inr; split; [done|lia]
     |by left].
  destruct (deep h tree) eqn:Hdeep; [by left|].
  destruct (decide _) as [|Hsome]; [left; naive_solver lia|].
  pose proof (remove_vars_sublist
                (iter (get_unused_variables (visit tree new_detector)))
                (universal_newlines content)) as Hsub.
  destruct (remove_vars _ _) as [modified count] eqn:Hloop.
  destruct (0 <? count) eqn:Hcount; [|left; naive_solver lia].
  apply Nat.ltb_lt in Hcount.
  destruct (decide (ft = OpenWriteFault)) as [->|Hopen]; [by left|].
  right. exists content, modified, count.
  split_and!; try done; [by exists tree|by destruct ft].
Qed.

Lemma javascript_body_spec h ft filepath dk :
  let b := javascript_body h ft filepath dk in
  (b.2 = dk
   ∧ (∀ removed errors, b.1 = inr (removed, errors) → removed = 0 ∧ errors ≤ 1)
   ∧ (dk !! resolve h filepath = None → b.1 = inl OSError))
  ∨ (∃ content modified count,
       dk !! resolve h filepath = Some content
       ∧ remove_decls (universal_newlines content) = (modified, count)
       ∧ sublist (chars modified) (chars (universal_newlines content))
       ∧ 0 < count
       ∧ b = match ft with
             | WriteFault written =>
                 (inl OSError,
                  <[resolve h filepath :=
                      String.substring 0 written
                        (os_newlines (linesep h) modified)]> dk)
             | _ =>
                 (print_return h (MsgRemoved count filepath) (count, 0),
                  <[resolve h filepath :=
                      os_newlines (linesep h) modified]> dk)
             end).
Proof.
  intros b. subst b.
  destruct (decide (ft = ReadFault)) as [->|Hft];
    [left; by rewrite javascript_body_unread by by left|].
  destruct (dk !! resolve h filepath) as [content|] eqn:Hfile;
    [|left; by rewrite javascript_body_unread by by right].
  rewrite (javascript_body_read _ _ _ _ content) by done.
  pose proof (remove_decls_sublist (universal_newlines content)) as Hsub.
  destruct (remove_decls _) as [modified count] eqn:Hloop.
  destruct (0 <? count) eqn:Hcount; [|left; naive_solver lia].
  apply Nat.ltb_lt in Hcount.
  destruct (decide (ft = OpenWriteFault)) as [->|Hopen]; [by left|].
  right. exists content, modified, count.
  split_and!; try done. by destruct ft.
Qed.

(** What the caller of [process_python_file] can rely on. *)
Lemma python_call h parse iter ft filepath dk :
  ∃ res dk',
    process_python_file h parse iter ft filepath dk = (res, dk')
    ∧ dom dk' = dom dk
    ∧ (∀ f, f ≠ resolve h filepath → dk' !! f = dk !! f)
    ∧ (dk !! resolve h filepath = None →
       dk' = dk
       ∧ res = print_return h (MsgError filepath OSError) (0, 1))
    ∧ (∀ content, dk !! resolve h filepath = Some content →
         ∃ content', dk' !! resolve h filepath = Some content'
                     ∧ sublist (chars (universal_newlines content'))
                         (chars (universal_newlines content)))
    ∧ (∀ e, res = inl e → ∃ e', stdout h (MsgError filepath e') = Some e)
    ∧ (∀ removed errors, res = inr (removed, errors) →
         errors ≤ 1
         ∧ (errors = 0 →
            (removed = 0 ∧ dk' = dk)
            ∨ (0 < removed
               ∧ ∃ content modified,
                   dk !! resolve h filepath = Some content
                   ∧ (∃ tree,
                        parse (universal_newlines content) = Parsed tree
                        ∧ remove_vars
                            (iter (get_unused_variables
                                     (visit tree new_detector)))
                            (universal_newlines content)
                          = (modified, removed))
                   ∧ dk' = <[resolve h filepath :=
                               os_newlines (linesep h) modified]> dk))).
Proof.
  apply (call_spec h ft filepath dk (python_body h parse iter ft filepath)
           (λ content modified count,
              ∃ tree,
                parse (universal_newlines content) = Parsed tree
                ∧ remove_vars
                    (iter (get_unused_variables (visit tree new_detector)))
                    (universal_newlines content)
                  = (modified, count))).
  apply python_body_spec.
Qed.

(** What the caller of [process_javascript_file] can rely on. *)
Lemma javascript_call h ft filepath dk :
  ∃ res dk',
    process_javascript_file h ft filepath dk = (res, dk')
    ∧ dom dk' = dom dk
    ∧ (∀ f, f ≠ resolve h filepath → dk' !! f = dk !! f)
    ∧ (dk !! resolve h filepath = None →
       dk' = dk
       ∧ res = print_return h (MsgError filepath OSError) (0, 1))
    ∧ (∀ content, dk !! resolve h filepath = Some content →
         ∃ content', dk' !! resolve h filepath = Some content'
                     ∧ sublist (chars (universal_newlines content'))
                         (chars (universal_newlines content)))
    ∧ (∀ e, res = inl e → ∃ e', stdout h (MsgError filepath e') = Some e)
    ∧ (∀ removed errors, res = inr (removed, errors) →
         errors ≤ 1
         ∧ (errors = 0 →
            (removed = 0 ∧ dk' = dk)
            ∨ (0 < removed
               ∧ ∃ content modified,
                   dk !! resolve h filepath = Some content
                   ∧ remove_decls (universal_newlines content)
                     = (modified, removed)
                   ∧ dk' = <[resolve h filepath :=
                               os_newlines (linesep h) modified]> dk))).
Proof.
  apply (call_spec h ft filepath dk (javascript_body h ft filepath)
           (λ content modified count,
              remove_decls (universal_newlines content) = (modified, count))).
  apply javascript_body_spec.
Qed.

End CallFacts.

(** ** The removal loop over several names *)

Module LoopFacts.
Import Re Edit Lines Names.
Import TextFacts MatchFacts ScanFacts.

Lemma plain_filter var (Q : string → Prop) `{∀ l, Decision (Q l)} ls :
  plain var ls → plain var (filter Q ls).
Proof.
  unfold plain. induction 1 as [|l ls Hl _ IH]; [constructor|].
  rewrite filter_cons. case_decide; [by constructor|done].
Qed.

Lemma plain_lengths var ls :
  plain var ls →
  length ls = length (kept_lines var ls) + length (removed_lines var ls).
Proof.
  unfold kept_lines, removed_lines.
  induction 1 as [|l ls [_ Hk] _ IH]; [done|].
  rewrite !filter_cons. destruct (classify var l) eqn:Ek; [| |done].
  - rewrite decide_False, decide_True by done. simpl. lia.
  - rewrite decide_True, decide_False by done. simpl. lia.
Qed.

Lemma kept_by_all_nil ls : kept_by_all [] ls = ls.
Proof.
  unfold kept_by_all. induction ls as [|l ls IH]; [done|].
  rewrite filter_cons, decide_True by constructor. by rewrite IH.
Qed.

Lemma kept_by_all_cons v vars ls :
  kept_by_all (v :: vars) ls = kept_by_all vars (kept_lines v ls).
Proof.
  unfold kept_by_all, kept_lines. rewrite list_filter_filter.
  apply list_filter_iff. intros l. rewrite Forall_cons. tauto.
Qed.

Lemma kept_by_all_perm vars vars' ls :
  vars ≡ₚ vars' → kept_by_all vars ls = kept_by_all vars' ls.
Proof.
  intros Hperm. unfold kept_by_all. apply list_filter_iff.
  intros l. by rewrite Hperm.
Qed.

Lemma all_plain_kept v vars ls :
  all_plain vars ls → all_plain vars (kept_lines v ls).
Proof.
  unfold all_plain. intros H. eapply Forall_impl; [exact H|].
  intros v' [? ?]. split; [done|]. by apply plain_filter.
Qed.

(** On a file that is plain for each name, the loop leaves the lines
    that none of the names removes, and counts the others. *)
Lemma remove_loop_plain vars ls count :
  all_plain vars ls →
  fold_left remove_var vars (text ls, count)
  = (text (kept_by_all vars ls),
     count + (length ls - length (kept_by_all vars ls))).
Proof.
  revert ls count. induction vars as [|v vars IH]; intros ls count Hall.
  - rewrite kept_by_all_nil. simpl. f_equal. lia.
  - apply Forall_cons in Hall as [[Hv Hplain] Hall].
    cbn [fold_left]. rewrite (remove_var_plain v Hv ls count Hplain).
    rewrite IH by by apply all_plain_kept.
    rewrite kept_by_all_cons. f_equal.
    pose proof (plain_lengths v ls Hplain).
    pose proof (length_filter (λ l, Forall (λ v, classify v l = Kept) vars)
                  (kept_lines v ls)).
    unfold kept_by_all. lia.
Qed.

Lemma remove_loop_perm vars vars' ls count :
  vars ≡ₚ vars' → all_plain vars ls →
  fold_left remove_var vars (text ls, count)
  = fold_left remove_var vars' (text ls, count).
Proof.
  intros Hperm Hall.
  assert (all_plain vars' ls) as Hall'.
  { unfold all_plain in *. by rewrite <- Hperm. }
  rewrite !remove_loop_plain by done.
  by rewrite (kept_by_all_perm vars vars' ls Hperm).
Qed.

End LoopFacts.

(** ** Blank lines in front of an assignment *)

Module BlankFacts.
Import Re Edit Lines Names.
Import TextFacts MatchFacts ScanFacts.

Lemma text_app ls1 ls2 : text (ls1 ++ ls2) = text ls1 +:+ text ls2.
Proof.
  induction ls1 as [|l ls1 IH]; [done|].
  cbn [app text]. rewrite IH, append_assoc. done.
Qed.

(** Blank lines are white space, line feeds included. *)
Lemma blank_text_spaces bs :
  Forall blank bs → all_chars is_space (text bs) = true.
Proof.
  induction 1 as [|b bs [_ Hb] _ IH]; [done|].
  cbn [text]. rewrite all_chars_append, Hb. cbn [all_chars]. by rewrite IH.
Qed.

Section Block.
Variable var : string.
Hypothesis Hvar : identifier var = true.

(** The pattern on white space of any kind (line feeds too), the name,
    the sign, and a value on the line of the sign. *)
Lemma match_assign_shape tail prev sp0 sp1 sp2 c value rest r :
  at_bol prev = true →
  all_chars is_space sp0 = true → all_chars is_space sp1 = true →
  all_chars is_space sp2 = true → is_space c = false →
  one_line (String c value) = true →
  (∀ p, rmatch tail p (String nl rest)
          (String.length
             (sp0 +:+ var +:+ sp1 +:+ String "=" (sp2 +:+ String c value)))
          [] = Some r) →
  rmatch (assign_pattern var ++ tail) prev
    ((sp0 +:+ var +:+ sp1 +:+ String "=" (sp2 +:+ String c value))
     +:+ String nl rest) 0 []
  = Some r.
Proof using Hvar.
  intros Hbol H0 H1 H2 Hc Hl Htail.
  unfold assign_pattern. cbn [app]. rewrite rmatch_bol, Hbol.
  rewrite !append_assoc. cbn [String.append].
  rewrite rmatch_star.
  rewrite star_run;
    [|exact H0|by apply name_stops|intros; by apply name_blocks].
  rewrite rmatch_lit, strip_prefix_append, rmatch_star.
  rewrite star_run; [|exact H1|done|intros; by apply equals_blocks].
  rewrite rmatch_lit. cbn [strip_prefix]. rewrite Ascii.eqb_refl.
  rewrite rmatch_star, append_assoc.
  apply star_run_ok; [exact H2|exact Hc|].
  rewrite rmatch_star.
  apply star_run_ok; [exact Hl|done|].
  rewrite rmatch_eol. cbn [at_eol]. rewrite Ascii.eqb_refl.
  erewrite <- Htail. f_equal.
  rewrite !length_append. cbn [String.length].
  rewrite !length_append. cbn [String.length]. lia.
Qed.

(** Blank lines followed by a line of kind [Removed] are matched as one
    block, from the first blank line to the end of the assignment. *)
Lemma match_block tail prev bs decl rest r :
  at_bol prev = true →
  Forall blank bs →
  one_line decl = true →
  classify var decl = Removed →
  (∀ p, rmatch tail p (String nl rest)
          (String.length (text bs +:+ decl)) [] = Some r) →
  rmatch (assign_pattern var ++ tail) prev
    ((text bs +:+ decl) +:+ String nl rest) 0 []
  = Some r.
Proof using Hvar.
  intros Hbol Hbs Hl Hk Htail.
  destruct (classify_removed var decl Hk)
    as (sp0 & sp1 & sp2 & c & value & -> & H0 & H1 & H2 & Hc).
  rewrite <- (append_assoc (text bs) sp0) in *.
  apply match_assign_shape; try done.
  - rewrite all_chars_append, H0, blank_text_spaces; done.
  - rewrite !one_line_append in Hl. cbn [one_line all_chars] in Hl.
    rewrite !one_line_append in Hl.
    apply andb_prop in Hl as [_ Hl]. apply andb_prop in Hl as [_ Hl].
    apply andb_prop in Hl as [_ Hl]. apply andb_prop in Hl as [_ Hl].
    by apply andb_prop in Hl as [_ Hl].
Qed.
End Block.

(** A match that covers a whole block and its line feed is deleted, and
    the scan goes on at the start of the next line. *)
Lemma sub_whole_match pat prev B rest ms :
  B ≠ "" →
  rmatch pat prev (B +:+ String nl rest) 0 [] = Some (S (String.length B), ms) →
  sub_scan pat "" None prev (B +:+ String nl rest) 0
  = sub_scan pat "" None (Some nl) rest 0.
Proof.
  intros HB Hm. destruct B as [|c B]; [done|].
  cbn [String.append sub_scan].
  change (String c (B +:+ String nl rest))
    with (String c B +:+ String nl rest).
  rewrite Hm. cbn [String.length fmap option_fmap option_map String.append].
  replace (B +:+ String nl rest) with ((B +:+ String nl "") +:+ rest)
    by by rewrite append_assoc.
  replace (S (String.length B)) with (String.length (B +:+ String nl ""))
    by (rewrite length_append; simpl; lia).
  by rewrite sub_skip, last_char_append.
Qed.

Lemma scan_whole_match pat prev B rest ms pos :
  B ≠ "" →
  at_bol (last_char prev B) = false →
  rmatch (ABol :: pat) prev (B +:+ String nl rest) 0 []
  = Some (String.length B, ms) →
  length (scan (ABol :: pat) prev (B +:+ String nl rest) 0 pos)
  = S (length (scan (ABol :: pat) (Some nl) rest 0 0)).
Proof.
  intros HB Hlast Hm. destruct B as [|c B]; [done|].
  cbn [String.append scan].
  change (String c (B +:+ String nl rest))
    with (String c B +:+ String nl rest).
  rewrite Hm. cbn [String.length pred length]. f_equal.
  rewrite scan_skip.
  change (String nl rest) with ("" +:+ String nl rest).
  rewrite scan_inside; [|done|exact Hlast].
  apply scan_length_pos.
Qed.

Section Prefix.
Variable var : string.
Hypothesis Hvar : identifier var = true.

(** The scan of plain lines followed by any text. *)
Lemma sub_text_app ls more X :
  plain var ls →
  (∀ prev, at_bol prev = true →
     sub_scan (assign_pattern var ++ opt_newline) "" None prev more 0 = X) →
  ∀ prev, at_bol prev = true →
    sub_scan (assign_pattern var ++ opt_newline) "" None prev
      (text ls +:+ more) 0
    = text (kept_lines var ls) +:+ X.
Proof using Hvar.
  intros Hls HS.
  induction Hls as [|l ls [Hl Hk] Hls IH]; intros prev Hp.
  - by apply HS.
  - assert (l ≠ "") as Hne by by apply classify_nonempty with var.
    unfold kept_lines in *. rewrite filter_cons.
    cbn [text]. rewrite append_assoc. cbn [String.append].
    destruct (classify var l) eqn:Ek; [| |done].
    + rewrite decide_False by done.
      rewrite (sub_whole_match _ _ _ _ []); [by apply IH|done|].
      by apply (match_removed var Hvar opt_newline).
    + rewrite decide_True by done. cbn [text].
      destruct l as [|c l]; [done|].
      cbn [String.append sub_scan].
      change (String c (l +:+ String nl (text ls +:+ more)))
        with (String c l +:+ String nl (text ls +:+ more)).
      rewrite (match_kept var Hvar opt_newline prev (String c l)) by done.
      cbn [String.append].
      change (assign_pattern var ++ opt_newline)
        with (ABol :: tl (assign_pattern var ++ opt_newline)).
      rewrite sub_inside;
        [| by eapply one_line_tail | by eapply one_line_head].
      change (ABol :: tl (assign_pattern var ++ opt_newline))
        with (assign_pattern var ++ opt_newline).
      rewrite IH by done. by rewrite append_assoc.
Qed.

Lemma count_text_app ls more n :
  plain var ls →
  (∀ prev pos, at_bol prev = true →
     length (scan (assign_pattern var) prev more 0 pos) = n) →
  ∀ prev pos, at_bol prev = true →
    length (scan (assign_pattern var) prev (text ls +:+ more) 0 pos)
    = length (removed_lines var ls) + n.
Proof using Hvar.
  intros Hls HS.
  induction Hls as [|l ls [Hl Hk] Hls IH]; intros prev pos Hp.
  - by apply HS.
  - assert (l ≠ "") as Hne by by apply classify_nonempty with var.
    unfold removed_lines in *. rewrite filter_cons.
    cbn [text]. rewrite append_assoc. cbn [String.append].
    destruct l as [|c l]; [done|].
    destruct (classify var (String c l)) eqn:Ek; [| |done].
    + rewrite decide_True by done.
      change (assign_pattern var) with (ABol :: tl (assign_pattern var)).
      rewrite (scan_whole_match _ _ _ _ []); [| done | |].
      * change (ABol :: tl (assign_pattern var)) with (assign_pattern var).
        rewrite IH by done. done.
      * cbn [last_char]. apply last_char_line; [by eapply one_line_tail|].
        by eapply one_line_head.
      * change (ABol :: tl (assign_pattern var)) with (assign_pattern var).
        rewrite <- (app_nil_r (assign_pattern var)).
        by apply (match_removed var Hvar []).
    + rewrite decide_False by done. cbn [String.append scan].
      change (String c (l +:+ String nl (text ls +:+ more)))
        with (String c l +:+ String nl (text ls +:+ more)).
      rewrite <- (app_nil_r (assign_pattern var)).
      rewrite (match_kept var Hvar [] prev (String c l)) by done.
      rewrite app_nil_r. cbn [String.append].
      change (assign_pattern var) with (ABol :: tl (assign_pattern var)).
      rewrite scan_inside;
        [| by eapply one_line_tail | by eapply one_line_head].
      by apply IH.
Qed.
End Prefix.

End BlankFacts.

(** ** The sweep *)

Module WalkFacts.
Import Re Edit Ast Script Names Walk.
Import TextFacts DeleteFacts CallFacts.

(** A name the second pattern matches ends with a dot, [j] or [t], [s],
    [x] and one more character. *)
Lemma js_glob_shape n :
  glob_match js_glob n = true →
  ∃ pre a c,
    n = pre +:+ String "." (String a (String "s" (String "x" (String c ""))))
    ∧ (a = "j"%char ∨ a = "t"%char).
Proof.
  unfold js_glob. cbn [glob_match].
  induction n as [|x n IH].
  - done.
  - intros H. apply orb_prop in H as [H|H].
    + exists "". destruct (Ascii.eqb_spec x ".") as [->|]; [|done].
      destruct n as [|a [|s [|x' [|c [|? ?]]]]]; simpl in H;
        rewrite ?andb_false_r in H; try done.
      destruct (Ascii.eqb_spec s "s") as [->|];
        [|by rewrite !andb_false_r in H].
      destruct (Ascii.eqb_spec x' "x") as [->|];
        [|by rewrite ?andb_false_r in H].
      exists a, c. split; [done|].
      destruct (Ascii.eqb_spec a "j") as [->|]; [by left|].
      destruct (Ascii.eqb_spec a "t") as [->|]; [by right|done].
    + destruct (IH H) as (pre & a & c & -> & Ha).
      by exists (String x pre), a, c.
Qed.

Lemma rfind_dot_append pre t :
  rfind_dot (pre +:+ t)
  = match rfind_dot t with
    | Some i => Some (String.length pre + i)
    | None => rfind_dot pre
    end.
Proof.
  induction pre as [|c pre IH]; simpl.
  - by destruct (rfind_dot t).
  - rewrite IH. by destruct (rfind_dot t).
Qed.

Lemma substring_append pre t :
  String.substring (String.length pre) (String.length t) (pre +:+ t) = t.
Proof.
  induction pre as [|c pre IH]; simpl; [|done].
  induction t as [|c t IHt]; simpl; [done|]. by rewrite IHt.
Qed.

(** No name the second pattern matches has a suffix the loop accepts. *)
Lemma js_glob_suffix (p : path) :
  glob_match js_glob (name p) = true → suffix p ∉ js_suffixes.
Proof.
  intros H. destruct (js_glob_shape _ H) as (pre & a & c & Hn & Ha).
  unfold suffix. rewrite Hn, rfind_dot_append, length_append.
  assert (Ascii.eqb a "." = false) as Hdot
    by (by destruct Ha as [-> | ->]).
  cbn [rfind_dot String.length]. rewrite Hdot.
  destruct (Ascii.eqb_spec c ".") as [->|Hc]; simpl.
  - replace (String.length pre + 4 <? String.length pre + 5 - 1) with false
      by (symmetry; apply Nat.ltb_ge; lia).
    rewrite andb_false_r. unfold js_suffixes. set_solver.
  - destruct ((0 <? String.length pre + 0)
              && (String.length pre + 0 <? String.length pre + 5 - 1));
      [|unfold js_suffixes; set_solver].
    replace (String.length pre + 5 - (String.length pre + 0)) with
      (String.length (String "." (String a (String "s"
                        (String "x" (String c ""))))))
      by (simpl; lia).
    rewrite Nat.add_0_r, substring_append.
    unfold js_suffixes. rewrite !elem_of_cons, elem_of_nil.
    intros [?|[?|[?|[?|[]]]]]; done.
Qed.

Lemma for_each_cons {A B} (body : A → B → io A) acc x l dk :
  for_each body acc (x :: l) dk
  = match body acc x dk with
    | (inl e, dk') => (inl e, dk')
    | (inr acc', dk') => for_each body acc' l dk'
    end.
Proof. done. Qed.

(** The counters after one more call. *)
Lemma count_step (count : summary → nat) (f : path) files acc dk acc1 dk1
    acc' dk' removed errors :
  errors ≤ 1 →
  (removed = 0 → errors = 0 → dk1 = dk) →
  total_removed acc1 = total_removed acc + removed →
  total_errors acc1 = total_errors acc + errors →
  count acc1 = (if (0 <? removed) || (0 <? errors)
                then count acc + 1 else count acc) →
  count_inv count files acc1 dk1 acc' dk' →
  count_inv count (f :: files) acc dk acc' dk'.
Proof.
  intros He Hquiet Hr Hee Hc (I1 & I2 & I3 & I4 & I5 & I6 & I7).
  unfold count_inv. cbn [length]. split_and!.
  - lia.
  - lia.
  - destruct ((0 <? removed) || (0 <? errors)); lia.
  - destruct removed, errors; simpl in Hc; lia.
  - destruct ((0 <? removed) || (0 <? errors)); lia.
  - destruct removed, errors; simpl in Hc; lia.
  - intros Hsame_r Hsame_e.
    assert (removed = 0) as -> by lia.
    assert (errors = 0) as -> by lia.
    rewrite <- (Hquiet eq_refl eq_refl).
    simpl in Hc. destruct I7 as [-> ->]; [lia|lia|]. done.
Qed.

Section Invariant.
Variable h : host.

(** The invariant of the disk: over no file, and over one list of files
    after another. *)
Lemma disk_inv_refl files dk : disk_inv h files dk dk.
Proof.
  unfold disk_inv. split_and!; [done|done|].
  intros f content ?. by exists content.
Qed.

Lemma disk_inv_trans files1 files2 dk dk1 dk' :
  disk_inv h files1 dk dk1 →
  disk_inv h files2 dk1 dk' →
  disk_inv h (files1 ++ files2) dk dk'.
Proof.
  intros (D1 & F1 & S1) (D2 & F2 & S2). unfold disk_inv. split_and!.
  - by rewrite D2.
  - intros f Hf. rewrite fmap_app, not_elem_of_app in Hf.
    destruct Hf as [Hf1 Hf2]. by rewrite F2, F1.
  - intros f content Hfile.
    destruct (S1 _ _ Hfile) as (c1 & Hc1 & Hs1).
    destruct (S2 _ _ Hc1) as (c2 & Hc2 & Hs2).
    exists c2. split; [done|]. by etrans.
Qed.

(** One call keeps the invariant over its file. *)
Lemma call_disk_inv f dk dk' :
  dom dk' = dom dk →
  (∀ g, g ≠ file_of h f → dk' !! g = dk !! g) →
  (∀ content, dk !! file_of h f = Some content →
     ∃ content', dk' !! file_of h f = Some content'
                 ∧ sublist (chars (universal_newlines content'))
                     (chars (universal_newlines content))) →
  disk_inv h [f] dk dk'.
Proof.
  intros Hdom Hother Hsub. unfold disk_inv. split_and!; [done| |].
  - intros g Hg. apply Hother. set_solver.
  - intros g content Hfile.
    destruct (decide (g = file_of h f)) as [->|Hne]; [by apply Hsub|].
    exists content. by rewrite Hother.
Qed.

End Invariant.

Section FirstLoop.
Variable h : host.
Variable parse : string → parse_result.
Variable iter : gset string → list string.
Variable fault_at : string → fault.

Lemma py_step_run acc f dk :
  skipped py_skip f = false →
  py_step h parse iter fault_at acc f dk
  = match process_python_file h parse iter (fault_at (path_str f))
            (path_str f) dk with
    | (inl e, dk') => (inl e, dk')
    | (inr (removed, errors), dk') =>
        (inr (Summary (total_removed acc + removed)
                (total_errors acc + errors)
                (if (0 <? removed) || (0 <? errors)
                 then py_count acc + 1 else py_count acc)
                (js_count acc)), dk')
    end.
Proof.
  intros Hskip. unfold py_step. rewrite Hskip. unfold mbind, io_bind.
  by destruct (process_python_file _ _ _ _ _ dk) as [[e|[removed errors]] dk'].
Qed.

Lemma py_step_pass acc f dk :
  skipped py_skip f = true →
  py_step h parse iter fault_at acc f dk = (inr acc, dk).
Proof. intros H. unfold py_step. by rewrite H. Qed.

(** The first loop: however it ends, it keeps the invariant of the disk
    over the files it does not skip; when it completes, the counters are
    as the invariant says; and what can leave it is the exception of a
    [print]. *)
Lemma py_loop py_files acc dk :
  ∃ res dk',
    for_each (py_step h parse iter fault_at) acc py_files dk = (res, dk')
    ∧ disk_inv h (swept py_files) dk dk'
    ∧ (∀ acc', res = inr acc' →
         js_count acc' = js_count acc
         ∧ count_inv py_count (swept py_files) acc dk acc' dk')
    ∧ (∀ e, res = inl e → ∃ m, stdout h m = Some e).
Proof.
  revert acc dk. induction py_files as [|f files IH]; intros acc dk.
  - exists (inr acc), dk. split_and!; [done|apply disk_inv_refl| |done].
    intros acc' [= <-]. split; [done|].
    unfold count_inv. split_and!; try lia. done.
  - rewrite for_each_cons. unfold swept. rewrite filter_cons.
    destruct (skipped py_skip f) eqn:Hskip.
    + rewrite decide_False by done. rewrite py_step_pass by done. apply IH.
    + rewrite decide_True by done. rewrite py_step_run by done.
      fold (swept files).
      destruct (python_call h parse iter (fault_at (path_str f))
                  (path_str f) dk)
        as (res1 & dk1 & -> & Hdom & Hother & _ & Hsub & Hraise & Hret).
      assert (disk_inv h [f] dk dk1) as Hinv1 by by apply call_disk_inv.
      destruct res1 as [e|[removed errors]].
      * exists (inl e), dk1. split_and!; [done| |done|].
        -- apply (disk_inv_trans h [f] _ dk dk1 dk1); [done|apply disk_inv_refl].
        -- intros e' [= <-].
           destruct (Hraise e eq_refl) as (e' & ?). eauto.
      * set (acc1 := Summary _ _ _ _).
        destruct (IH acc1 dk1) as (res & dk' & -> & Hinv & Hcount & Hleave).
        exists res, dk'.
        split_and!; [done|by apply (disk_inv_trans h [f] _ dk dk1 dk')| |done].
        intros acc' ->. destruct (Hcount acc' eq_refl) as [Hjs Hc].
        split; [done|].
        destruct (Hret removed errors eq_refl) as [He Hok].
        apply (count_step py_count f (swept files) acc dk acc1 dk1 acc' dk'
                 removed errors); [exact He| |done|done|done|exact Hc].
        intros -> ->. destruct (Hok eq_refl) as [[_ ?]|[? _]]; [done|lia].
Qed.

End FirstLoop.

Section SecondLoop.
Variable h : host.
Variable fault_at : string → fault.

(** A file the second pattern matches is passed over. *)
Lemma js_step_idle acc p dk :
  glob_match js_glob (name p) = true →
  js_step h fault_at acc p dk = (inr acc, dk).
Proof.
  intros H. unfold js_step. destruct (skipped js_skip p); [done|].
  by rewrite bool_decide_eq_false_2 by by apply js_glob_suffix.
Qed.

Lemma js_loop_idle js_files acc dk :
  Forall (λ p, glob_match js_glob (name p) = true) js_files →
  for_each (js_step h fault_at) acc js_files dk = (inr acc, dk).
Proof.
  intros H. revert acc. induction H as [|p ps Hp _ IH]; intros acc; [done|].
  cbn [for_each]. unfold mbind, io_bind. by rewrite js_step_idle.
Qed.

Lemma js_step_run acc f dk :
  skipped js_skip f = false → suffix f ∈ js_suffixes →
  js_step h fault_at acc f dk
  = match process_javascript_file h (fault_at (path_str f)) (path_str f) dk
    with
    | (inl e, dk') => (inl e, dk')
    | (inr (removed, errors), dk') =>
        (inr (Summary (total_removed acc + removed)
                (total_errors acc + errors)
                (py_count acc)
                (if (0 <? removed) || (0 <? errors)
                 then js_count acc + 1 else js_count acc)), dk')
    end.
Proof.
  intros Hskip Hsuf. unfold js_step. rewrite Hskip.
  rewrite bool_decide_eq_true_2 by done. unfold mbind, io_bind.
  by destruct (process_javascript_file _ _ _ dk) as [[e|[removed errors]] dk'].
Qed.

Lemma js_step_pass acc f dk :
  skipped js_skip f = true ∨ suffix f ∉ js_suffixes →
  js_step h fault_at acc f dk = (inr acc, dk).
Proof.
  intros H. unfold js_step. destruct (skipped js_skip f); [done|].
  destruct H as [?|H]; [done|]. by rewrite bool_decide_eq_false_2.
Qed.

(** The second loop, likewise, over the files it neither skips nor
    rejects for their suffix. *)
Lemma js_loop js_files acc dk :
  ∃ res dk',
    for_each (js_step h fault_at) acc js_files dk = (res, dk')
    ∧ disk_inv h (js_swept js_files) dk dk'
    ∧ (∀ acc', res = inr acc' →
         py_count acc' = py_count acc
         ∧ count_inv js_count (js_swept js_files) acc dk acc' dk')
    ∧ (∀ e, res = inl e → ∃ m, stdout h m = Some e).
Proof.
  revert acc dk. induction js_files as [|f files IH]; intros acc dk.
  - exists (inr acc), dk. split_and!; [done|apply disk_inv_refl| |done].
    intros acc' [= <-]. split; [done|].
    unfold count_inv. split_and!; try lia. done.
  - rewrite for_each_cons. unfold js_swept. rewrite filter_cons.
    destruct (skipped js_skip f) eqn:Hskip.
    { rewrite decide_False by (by intros [? _]).
      rewrite js_step_pass by by left. apply IH. }
    destruct (decide (suffix f ∈ js_suffixes)) as [Hsuf|Hsuf].
    2:{ rewrite decide_False by (by intros [_ ?]).
        rewrite js_step_pass by by right. apply IH. }
    rewrite decide_True by done. rewrite js_step_run by done.
    fold (js_swept files).
    destruct (javascript_call h (fault_at (path_str f)) (path_str f) dk)
      as (res1 & dk1 & -> & Hdom & Hother & _ & Hsub & Hraise & Hret).
    assert (disk_inv h [f] dk dk1) as Hinv1 by by apply call_disk_inv.
    destruct res1 as [e|[removed errors]].
    + exists (inl e), dk1. split_and!; [done| |done|].
      * apply (disk_inv_trans h [f] _ dk dk1 dk1); [done|apply disk_inv_refl].
      * intros e' [= <-].
        destruct (Hraise e eq_refl) as (e' & ?). eauto.
    + set (acc1 := Summary _ _ _ _).
      destruct (IH acc1 dk1) as (res & dk' & -> & Hinv & Hcount & Hleave).
      exists res, dk'.
      split_and!; [done|by apply (disk_inv_trans h [f] _ dk dk1 dk')| |done].
      intros acc' ->. destruct (Hcount acc' eq_refl) as [Hpy Hc].
      split; [done|].
      destruct (Hret removed errors eq_refl) as [He Hok].
      apply (count_step js_count f (js_swept files) acc dk acc1 dk1 acc' dk'
               removed errors); [exact He| |done|done|done|exact Hc].
      intros -> ->. destruct (Hok eq_refl) as [[_ ?]|[? _]]; [done|lia].
Qed.

End SecondLoop.


End WalkFacts.

(** ** [main] as a whole *)

Module SweepFacts.
Import Re Edit Ast Script Names Walk.
Import ScriptFacts CallFacts WalkFacts.

Section Sweep.
Variable h : host.
Variable parse : string → parse_result.
Variable iter : gset string → list string.
Variable fault_at : string → fault.

Lemma main_run py_files js_files dk :
  main h parse iter fault_at py_files js_files dk
  = match first_loop h parse iter fault_at py_files dk with
    | (inl e, dk1) => (inl e, dk1)
    | (inr acc1, dk1) =>
        match second_loop h fault_at acc1 js_files dk1 with
        | (inl e, dk') => (inl e, dk')
        | (inr acc, dk') =>
            match report h acc dk' with
            | (inl e, dk'') => (inl e, dk'')
            | (inr _, dk'') => (inr acc, dk'')
            end
        end
    end.
Proof. done. Qed.

(** The summary touches no file; what can leave it is the exception of
    a [print]. *)
Lemma report_run acc dk :
  ∃ r, report h acc dk = (r, dk) ∧ (∀ e, r = inl e → ∃ m, stdout h m = Some e).
Proof.
  unfold report. rewrite !print_then.
  repeat match goal with
         | |- context [stdout h ?m] => destruct (stdout h m) eqn:?
         end;
    try (eexists; split; [reflexivity|]; intros ? [= <-]; by eauto).
  destruct (total_errors acc =? 0); unfold print;
    match goal with
    | |- context [stdout h ?m] => destruct (stdout h m) eqn:?
    end;
    eexists; (split; [reflexivity|]); intros ?; try done;
    intros [= <-]; eauto.
Qed.

Lemma first_loop_spec py_files dk :
  ∃ res dk',
    first_loop h parse iter fault_at py_files dk = (res, dk')
    ∧ disk_inv h (swept py_files) dk dk'
    ∧ (∀ acc', res = inr acc' →
         js_count acc' = 0
         ∧ count_inv py_count (swept py_files) (Summary 0 0 0 0) dk acc' dk')
    ∧ (∀ e, res = inl e → ∃ m, stdout h m = Some e).
Proof.
  unfold first_loop. rewrite !print_then.
  destruct (stdout h MsgScanning) as [e1|] eqn:E1.
  { exists (inl e1), dk.
    split_and!; [done|apply disk_inv_refl|done|].
    intros e [= <-]. eauto. }
  destruct (stdout h MsgRule) as [e2|] eqn:E2.
  { exists (inl e2), dk.
    split_and!; [done|apply disk_inv_refl|done|].
    intros e [= <-]. eauto. }
  destruct (stdout h MsgPython) as [e3|] eqn:E3.
  { exists (inl e3), dk.
    split_and!; [done|apply disk_inv_refl|done|].
    intros e [= <-]. eauto. }
  apply py_loop.
Qed.

Lemma second_loop_spec js_files acc dk :
  ∃ res dk',
    second_loop h fault_at acc js_files dk = (res, dk')
    ∧ disk_inv h (js_swept js_files) dk dk'
    ∧ (∀ acc', res = inr acc' →
         py_count acc' = py_count acc
         ∧ count_inv js_count (js_swept js_files) acc dk acc' dk')
    ∧ (∀ e, res = inl e → ∃ m, stdout h m = Some e).
Proof.
  unfold second_loop. rewrite print_then.
  destruct (stdout h MsgJavaScript) as [e1|] eqn:E1.
  { exists (inl e1), dk.
    split_and!; [done|apply disk_inv_refl|done|].
    intros e [= <-]. eauto. }
  apply js_loop.
Qed.

(** [main]: however it ends, the disk; when it completes, the counters
    of the two loops in sequence; and what can leave it. *)
Lemma main_spec py_files js_files dk :
  ∃ res dk',
    main h parse iter fault_at py_files js_files dk = (res, dk')
    ∧ disk_inv h (swept py_files ++ js_swept js_files) dk dk'
    ∧ (∀ s, res = inr s →
         ∃ s1 dk1,
           count_inv py_count (swept py_files) (Summary 0 0 0 0) dk s1 dk1
           ∧ js_count s1 = 0
           ∧ count_inv js_count (js_swept js_files) s1 dk1 s dk'
           ∧ py_count s = py_count s1)
    ∧ (∀ e, res = inl e → ∃ m, stdout h m = Some e).
Proof.
  rewrite main_run.
  destruct (first_loop_spec py_files dk)
    as (res1 & dk1 & -> & Hinv1 & Hcount1 & Hleave1).
  destruct res1 as [e|s1].
  { exists (inl e), dk1. split_and!; [done| |done|exact Hleave1].
    apply (disk_inv_trans h _ _ dk dk1 dk1); [done|apply disk_inv_refl]. }
  destruct (second_loop_spec js_files s1 dk1)
    as (res2 & dk' & -> & Hinv2 & Hcount2 & Hleave2).
  assert (disk_inv h (swept py_files ++ js_swept js_files) dk dk') as Hinv
    by by apply (disk_inv_trans h _ _ dk dk1 dk').
  destruct res2 as [e|s].
  { exists (inl e), dk'. split_and!; [done|done|done|exact Hleave2]. }
  destruct (report_run s dk') as (r & -> & Hleave3).
  destruct r as [e|[]].
  { exists (inl e), dk'. split_and!; [done|done|done|].
    intros e' [= <-]. by apply Hleave3. }
  exists (inr s), dk'. split_and!; [done|done| |done].
  intros s' [= <-].
  destruct (Hcount1 s1 eq_refl) as [Hjs0 Hc1].
  destruct (Hcount2 s eq_refl) as [Hpy Hc2].
  by exists s1, dk1.
Qed.


End Sweep.

End SweepFacts.

(** ** A declaration of the other mode *)

Module DeclFacts.
Import Re Edit Lines Names.
Import TextFacts MatchFacts ScanFacts.

Lemma rmatch_open g pat prev s n ms :
  rmatch (AOpen g :: pat) prev s n ms = rmatch pat prev s n ((g, true, n) :: ms).
Proof. done. Qed.

Lemma rmatch_close g pat prev s n ms :
  rmatch (AClose g :: pat) prev s n ms
  = rmatch pat prev s n ((g, false, n) :: ms).
Proof. done. Qed.

Lemma rmatch_plus k pat prev c s n ms :
  in_class k c = true →
  rmatch (APlus k :: pat) prev (String c s) n ms
  = star k (rmatch pat) (Some c) s (S n) ms.
Proof. intros H. cbn [rmatch]. by rewrite H. Qed.

Lemma rmatch_alt ls pat prev s n ms :
  rmatch (AAlt ls :: pat) prev s n ms = alt ls (rmatch pat) prev s n ms.
Proof. done. Qed.

(** An alternative that is not there is passed; one that is there, and
    after which the pattern succeeds, is taken. *)
Lemma alt_miss l ls cont prev s n ms :
  strip_prefix l s = None →
  alt (l :: ls) cont prev s n ms = alt ls cont prev s n ms.
Proof. intros H. cbn [alt]. by rewrite eat_strip, H. Qed.

Lemma alt_hit l ls cont prev t n ms r :
  (∀ p, cont p t (n + String.length l) ms = Some r) →
  alt (l :: ls) cont prev (l +:+ t) n ms = Some r.
Proof.
  intros H. cbn [alt]. rewrite eat_strip, strip_prefix_append.
  cbn [fmap option_fmap option_map]. by rewrite H.
Qed.

(** What cannot follow a run, for each run of the declaration pattern. *)
Lemma keyword_blocks pat p c u m ms :
  is_space c = true →
  rmatch (AClose 1 :: AOpen 2 :: AAlt ["const"; "let"; "var"] :: pat)
    p (String c u) m ms = None.
Proof.
  intros Hc. rewrite rmatch_close, rmatch_open. cbn [rmatch alt eat].
  destruct (Ascii.eqb_spec "c" c) as [<-|]; [by vm_compute in Hc|].
  destruct (Ascii.eqb_spec "l" c) as [<-|]; [by vm_compute in Hc|].
  destruct (Ascii.eqb_spec "v" c) as [<-|]; [by vm_compute in Hc|]. done.
Qed.

Lemma word_blocks pat p c u m ms :
  is_space c = true →
  rmatch (AOpen 3 :: APlus CWord :: pat) p (String c u) m ms = None.
Proof.
  intros Hc. rewrite rmatch_open. cbn [rmatch in_class].
  by rewrite (space_not_word c Hc).
Qed.

Lemma sign_blocks pat p c u m ms :
  is_word c = true →
  rmatch (AClose 3 :: AStar CSpace :: ALit "=" :: pat) p (String c u) m ms
  = None.
Proof.
  intros Hc. rewrite rmatch_close, rmatch_star. cbn [star in_class].
  rewrite (word_not_space c Hc), rmatch_lit. cbn [strip_prefix].
  destruct (Ascii.eqb_spec "=" c) as [<-|]; [by vm_compute in Hc|done].
Qed.

Lemma semicolon_blocks p c u m ms :
  in_class (CNot ";") c = true →
  rmatch [ALit ";"] p (String c u) m ms = None.
Proof.
  intros Hc. rewrite rmatch_lit. cbn [strip_prefix].
  destruct (Ascii.eqb_spec ";" c) as [<-|]; [by vm_compute in Hc|done].
Qed.

Lemma stops_spaces_then (k : cclass) sp c t :
  spaces sp →
  (∀ x, is_space x = true → in_class k x = false) →
  in_class k c = false →
  stops k (sp +:+ String c t).
Proof.
  intros Hsp Hk Hc. destruct sp as [|x sp]; simpl; [done|].
  apply Hk. unfold spaces in Hsp. simpl in Hsp.
  by apply andb_prop in Hsp as [? _].
Qed.

Lemma substring_mid pre x post :
  String.substring (String.length pre) (String.length x) (pre +:+ x +:+ post)
  = x.
Proof.
  induction pre as [|c pre IH]; simpl; [|done].
  induction x as [|c x IHx]; simpl; [by destruct post|]. by rewrite IHx.
Qed.

Lemma substring_whole x post :
  String.substring 0 (String.length x) (x +:+ post) = x.
Proof. apply (substring_mid "" x post). Qed.

(** The pattern on a declaration: it matches up to the first semicolon,
    and its third group is the name. *)
Lemma declaration_match indent kw sp1 name sp2 sp3 init tail prev :
  at_bol prev = true →
  declares indent kw sp1 name sp2 sp3 init →
  ∃ ms,
    rmatch var_pattern prev
      (declaration indent kw sp1 name sp2 sp3 init +:+ tail) 0 []
    = Some (String.length (declaration indent kw sp1 name sp2 sp3 init), ms)
    ∧ find_mark 3 true ms = Some (String.length (indent +:+ kw +:+ sp1))
    ∧ find_mark 3 false ms
      = Some (String.length (indent +:+ kw +:+ sp1) + String.length name).
Proof.
  intros Hbol (Hkw & Hind & Hsp1 & Hne1 & Hsp2 & Hsp3 & Hname & Hinit & Hhead).
  destruct init as [|c0 init]; [done|].
  destruct sp1 as [|b sp1]; [done|].
  destruct (identifier_head name Hname) as (v & vs & -> & Hv).
  assert (all_chars is_word vs = true) as Hvs.
  { unfold identifier in Hname. simpl in Hname. by apply andb_prop in Hname as [_ ?]. }
  unfold spaces in *. simpl in Hsp1. apply andb_prop in Hsp1 as [Hb Hsp1].
  simpl in Hinit. apply andb_prop in Hinit as [Hc0 Hinit].
  (* the text after the keyword *)
  set (after_kw := String b sp1 +:+ String v vs +:+ sp2
                   +:+ String "=" (sp3 +:+ String c0 init +:+ String ";" tail)).
  assert (∀ p n ms,
            rmatch [AClose 2; APlus CSpace; AOpen 3; APlus CWord; AClose 3;
                    AStar CSpace; ALit "="; AStar CSpace; APlus (CNot ";");
                    ALit ";"] p after_kw n ms
            = Some (n + String.length (String b sp1) + String.length (String v vs)
                    + String.length sp2 + 1 + String.length sp3
                    + String.length (String c0 init) + 1,
                    (3, false, n + String.length (String b sp1)
                               + String.length (String v vs))
                    :: (3, true, n + String.length (String b sp1))
                    :: (2, false, n) :: ms)) as Hafter.
  { intros p n ms. unfold after_kw.
    rewrite rmatch_close. cbn [String.append].
    rewrite rmatch_plus by exact Hb.
    rewrite star_run; [|exact Hsp1|by simpl; apply word_not_space
                       |intros; by apply word_blocks].
    rewrite rmatch_open. cbn [String.append].
    rewrite rmatch_plus by exact Hv.
    rewrite star_run; [|exact Hvs| |intros; by apply sign_blocks].
    2:{ apply stops_spaces_then; [done|apply space_not_word|done]. }
    rewrite rmatch_close, rmatch_star.
    rewrite star_run; [|exact Hsp2|done|intros; by apply equals_blocks].
    rewrite rmatch_lit. cbn [strip_prefix]. rewrite Ascii.eqb_refl.
    rewrite rmatch_star. cbn [String.append].
    apply star_run_ok; [exact Hsp3|exact Hhead|].
    rewrite rmatch_plus by exact Hc0.
    rewrite star_run; [|exact Hinit|done|intros; by apply semicolon_blocks].
    rewrite rmatch_lit. cbn [strip_prefix]. rewrite Ascii.eqb_refl.
    cbn [rmatch String.length].
    assert (∀ (x x' y y' z z' : nat) (l : marks),
              x = x' → y = y' → z = z' →
              Some (x, (3, false, y) :: (3, true, z) :: l)
              = Some (x', (3, false, y') :: (3, true, z') :: l)) as Heq
      by (by intros; subst).
    apply Heq; lia. }
  assert (declaration indent kw (String b sp1) (String v vs) sp2 sp3
            (String c0 init) +:+ tail
          = indent +:+ kw +:+ after_kw) as ->.
  { unfold declaration, after_kw.
    repeat (rewrite ?append_assoc; progress cbn [String.append]).
    by rewrite ?append_assoc. }
  unfold var_pattern.
  rewrite rmatch_bol, Hbol, rmatch_open, rmatch_star.
  assert (stops CSpace (kw +:+ after_kw)) as Hstop.
  { pose proof Hkw as Hkw'. rewrite !elem_of_cons, elem_of_nil in Hkw'.
    by destruct Hkw' as [->|[->|[->|[]]]]. }
  rewrite star_run; [|exact Hind|exact Hstop|intros; by apply keyword_blocks].
  rewrite rmatch_close, rmatch_open.
  rewrite rmatch_alt.
  assert (alt ["const"; "let"; "var"]
            (rmatch [AClose 2; APlus CSpace; AOpen 3; APlus CWord;
                     AClose 3; AStar CSpace; ALit "="; AStar CSpace;
                     APlus (CNot ";"); ALit ";"])
            (last_char prev indent) (kw +:+ after_kw)
            (0 + String.length indent)
            [(2, true, 0 + String.length indent);
             (1, false, 0 + String.length indent); (1, true, 0)]
          = Some (0 + String.length indent + String.length kw
                  + String.length (String b sp1)
                  + String.length (String v vs)
                  + String.length sp2 + 1 + String.length sp3
                  + String.length (String c0 init) + 1,
                  [(3, false, 0 + String.length indent + String.length kw
                              + String.length (String b sp1)
                              + String.length (String v vs));
                   (3, true, 0 + String.length indent + String.length kw
                             + String.length (String b sp1));
                   (2, false, 0 + String.length indent + String.length kw);
                   (2, true, 0 + String.length indent);
                   (1, false, 0 + String.length indent); (1, true, 0)]))
    as ->.
  { rewrite !elem_of_cons, elem_of_nil in Hkw.
    destruct Hkw as [->|[->|[->|[]]]].
    - apply alt_hit. intros p. apply Hafter.
    - rewrite alt_miss by done. apply alt_hit. intros p. apply Hafter.
    - rewrite alt_miss by done. rewrite alt_miss by done.
      apply alt_hit. intros p. apply Hafter. }
  eexists. split_and!.
  - f_equal. f_equal. unfold declaration.
    rewrite !length_append. cbn [String.length].
    rewrite !length_append. cbn [String.length]. lia.
  - cbn [find_mark Nat.eqb Bool.eqb andb]. f_equal.
    rewrite !length_append. cbn [String.length]. lia.
  - cbn [find_mark Nat.eqb Bool.eqb andb]. f_equal.
    rewrite !length_append. cbn [String.length]. lia.
Qed.

Lemma no_declaration_at_end prev : rmatch var_pattern prev "" 0 [] = None.
Proof.
  unfold var_pattern. rewrite rmatch_bol. destruct (at_bol prev); [|done].
  rewrite rmatch_open, rmatch_star. cbn [star].
  by rewrite rmatch_close, rmatch_open, rmatch_alt.
Qed.

(** The first match of a scan, when it is at the position of the scan. *)
Lemma scan_first pat prev D tail ms pos :
  D ≠ "" →
  rmatch pat prev (D +:+ tail) 0 [] = Some (String.length D, ms) →
  scan pat prev (D +:+ tail) 0 pos
  = MatchObj pos D ms
    :: scan pat (last_char prev D) tail 0 (pos + String.length D).
Proof.
  intros HD Hm. destruct D as [|c D]; [done|].
  cbn [String.append scan].
  change (String c (D +:+ tail)) with (String c D +:+ tail).
  rewrite Hm, substring_whole. cbn [String.length pred last_char].
  rewrite scan_skip. do 2 f_equal. lia.
Qed.

Lemma last_char_declaration prev indent kw sp1 name sp2 sp3 init :
  last_char prev (declaration indent kw sp1 name sp2 sp3 init) = Some ";"%char.
Proof.
  unfold declaration. rewrite !last_char_append. cbn [last_char].
  by rewrite !last_char_append.
Qed.

Lemma declaration_nonempty indent kw sp1 name sp2 sp3 init :
  declaration indent kw sp1 name sp2 sp3 init ≠ "".
Proof.
  intros H. apply (f_equal (last_char None)) in H.
  by rewrite last_char_declaration in H.
Qed.

(** A file that holds one declaration and nothing after the line of its
    first semicolon has one match. *)
Lemma one_declaration indent kw sp1 name sp2 sp3 init t :
  declares indent kw sp1 name sp2 sp3 init →
  one_line t = true →
  ∃ m,
    finditer var_pattern
      (declaration indent kw sp1 name sp2 sp3 init +:+ t +:+ String nl "")
    = [m]
    ∧ group m 0 = declaration indent kw sp1 name sp2 sp3 init
    ∧ group m 3 = name.
Proof.
  intros Hd Ht.
  destruct (declaration_match indent kw sp1 name sp2 sp3 init
              (t +:+ String nl "") None eq_refl Hd) as (ms & Hm & Hopen & Hclose).
  exists (MatchObj 0 (declaration indent kw sp1 name sp2 sp3 init) ms).
  split_and!.
  - unfold finditer. rewrite (scan_first _ _ _ _ ms);
      [|apply declaration_nonempty|done].
    f_equal. apply nil_length_inv. unfold var_pattern.
    rewrite scan_inside; [|done|by rewrite last_char_declaration].
    cbn [scan]. fold var_pattern. by rewrite no_declaration_at_end.
  - done.
  - unfold group. cbn [m_marks m_text]. rewrite Hopen, Hclose.
    replace (String.length (indent +:+ kw +:+ sp1) + String.length name
             - String.length (indent +:+ kw +:+ sp1))
      with (String.length name) by lia.
    etransitivity; [|apply (substring_mid (indent +:+ kw +:+ sp1) name
      (sp2 +:+ String "=" (sp3 +:+ init +:+ String ";" "")))].
    f_equal. unfold declaration. by rewrite !append_assoc.
Qed.

(** Once the allowed number of replacements is reached, the rest of the
    text is copied. *)
Lemma sub_scan_spent pat repl prev s :
  sub_scan pat repl (Some 0) prev s 0 = s.
Proof. by destruct s. Qed.

(** Deleting the first occurrence of a text that stands at the start
    takes the text and the line end after it, if there is one. *)
Lemma sub_first_at_start D tail :
  D ≠ "" →
  sub (ALit D :: opt_newline) "" (D +:+ tail) 1 = after_newline tail.
Proof.
  intros HD. destruct D as [|c D]; [done|].
  assert (Hm : rmatch (ALit (String c D) :: opt_newline) None
                 (String c (D +:+ tail)) 0 []
               = Some (match tail with
                       | String x _ =>
                           if Ascii.eqb x nl then S (S (String.length D))
                           else S (String.length D)
                       | EmptyString => S (String.length D)
                       end, [])).
  { change (String c (D +:+ tail)) with (String c D +:+ tail).
    rewrite rmatch_lit, strip_prefix_append. unfold opt_newline.
    destruct tail as [|x t]; [done|]. cbn [rmatch in_class].
    by destruct (Ascii.eqb x nl). }
  unfold sub. cbn [String.append sub_scan]. rewrite Hm.
  destruct tail as [|x t].
  - cbn [String.append]. rewrite sub_skip. done.
  - unfold after_newline. destruct (Ascii.eqb_spec x nl) as [->|].
    + change (String nl t) with (String nl "" +:+ t).
      rewrite <- append_assoc.
      replace (S (String.length D))
        with (String.length (D +:+ String nl ""))
        by (rewrite length_append; cbn [String.length]; lia).
      cbn [String.append]. rewrite sub_skip. apply sub_scan_spent.
    + cbn [String.append]. rewrite sub_skip. apply sub_scan_spent.
Qed.

End DeclFacts.

(* ===================================================================== *)
(** * Further properties, stated *)
(* ===================================================================== *)

Module Extras.
Import Re Edit Ast Collect Lines Script Files Names Walk.
Import TextFacts MatchFacts ScanFacts DetectorFacts ScriptFacts.
Import DeleteFacts CallFacts LoopFacts BlankFacts WalkFacts SweepFacts.
Import DeclFacts.

(** *** X1: a report without error tells what is on the disk *)

(** X1.  When a call returns an error count of 0, the disk is what the
    pair says: with 0 removals nothing has changed; with [removed] > 0 the
    file holds the text the removal loop left of the text read (line
    ends translated as Python reads them), written with the line
    separator of the platform, [removed] is the count of that loop, and
    nothing else has changed. *)
Theorem clean_report_matches_disk h parse iter ft filepath dk removed dk' :
  (process_python_file h parse iter ft filepath dk = (inr (removed, 0), dk') →
   (removed = 0 ∧ dk' = dk)
   ∨ (0 < removed
      ∧ ∃ content tree modified,
          dk !! resolve h filepath = Some content
          ∧ parse (universal_newlines content) = Parsed tree
          ∧ remove_vars
              (iter (get_unused_variables (visit tree new_detector)))
              (universal_newlines content)
            = (modified, removed)
          ∧ dk' = <[resolve h filepath :=
                      os_newlines (linesep h) modified]> dk))
  ∧ (process_javascript_file h ft filepath dk = (inr (removed, 0), dk') →
     (removed = 0 ∧ dk' = dk)
     ∨ (0 < removed
        ∧ ∃ content modified,
            dk !! resolve h filepath = Some content
            ∧ remove_decls (universal_newlines content) = (modified, removed)
            ∧ dk' = <[resolve h filepath :=
                        os_newlines (linesep h) modified]> dk)).
Proof.
  split; intros Hrun.
  - destruct (python_call h parse iter ft filepath dk)
      as (res & dk1 & Hcall & _ & _ & _ & _ & _ & Hret).
    rewrite Hrun in Hcall. injection Hcall as <- <-.
    destruct (Hret removed 0 eq_refl) as [_ Hok].
    destruct (Hok eq_refl)
      as [?|[? (content & modified & ? & (tree & ? & ?) & ?)]];
      [by left|right]. split; [done|]. by exists content, tree, modified.
  - destruct (javascript_call h ft filepath dk)
      as (res & dk1 & Hcall & _ & _ & _ & _ & _ & Hret).
    rewrite Hrun in Hcall. injection Hcall as <- <-.
    destruct (Hret removed 0 eq_refl) as [_ Hok].
    destruct (Hok eq_refl) as [?|[? (content & modified & ? & ? & ?)]];
      [by left|right]. split; [done|]. by exists content, modified.
Qed.

(** Scenario B with the line ends of Windows, on a Windows host: one
    removal reported, the file holds the edited text, with CR LF. *)
Lemma clean_report_matches_disk_witness :
  (1 = 0
   ∧ ({[Files.path := os_newlines CRLF scenario_b_out]} : disk)
     = {[Files.path := scenario_b_crlf]})
  ∨ (0 < 1
     ∧ ∃ content tree modified,
         ({[Files.path := scenario_b_crlf]} : disk)
           !! resolve windows Files.path = Some content
         ∧ parse_table [(scenario_b, scenario_b_tree)]
             (universal_newlines content) = Parsed tree
         ∧ remove_vars
             (elements (get_unused_variables (visit tree new_detector)))
             (universal_newlines content)
           = (modified, 1)
         ∧ ({[Files.path := os_newlines CRLF scenario_b_out]} : disk)
           = <[resolve windows Files.path :=
                 os_newlines (linesep windows) modified]>
               ({[Files.path := scenario_b_crlf]} : disk)).
Proof.
  refine (proj1 (clean_report_matches_disk windows
                   (parse_table [(scenario_b, scenario_b_tree)]) elements
                   NoFault Files.path {[Files.path := scenario_b_crlf]} 1
                   {[Files.path := os_newlines CRLF scenario_b_out]}) _).
  vm_compute. exact eq_refl.
Defined.

(** *** X2: no file is created, none disappears *)

(** X2.  A call leaves the set of files of the disk as it was; on a path
    that names no file it changes nothing, and its outcome is that of
    the handler: (0, 1) once the message of the handler is printed. *)
Theorem call_keeps_paths h parse iter ft filepath dk :
  let py := process_python_file h parse iter ft filepath dk in
  let js := process_javascript_file h ft filepath dk in
  let missing : (exn + nat * nat) * disk :=
    (print_return h (MsgError filepath OSError) (0, 1), dk) in
  dom py.2 = dom dk ∧ dom js.2 = dom dk
  ∧ (dk !! resolve h filepath = None → py = missing ∧ js = missing).
Proof.
  intros py js missing. subst py js missing.
  destruct (python_call h parse iter ft filepath dk)
    as (r & dk1 & -> & Hdom & _ & Hmiss & _).
  destruct (javascript_call h ft filepath dk)
    as (r' & dk2 & -> & Hdom' & _ & Hmiss' & _).
  split_and!; [done|done|]. intros Hnone.
  destruct (Hmiss Hnone) as (-> & ->).
  by destruct (Hmiss' Hnone) as (-> & ->).
Qed.

(** *** X3: a call only deletes characters *)



(** *** X4: the removal loop on a plain file *)

(** X4.  On a file that is plain for every name of the loop, the loop
    leaves exactly the lines that no name removes, in their order, and
    its count is the number of lines it has deleted. *)
Theorem removal_loop_on_plain_file vars ls :
  all_plain vars ls →
  remove_vars vars (text ls)
  = (text (kept_by_all vars ls), length ls - length (kept_by_all vars ls)).
Proof. intros Hall. unfold remove_vars. by rewrite remove_loop_plain. Qed.

(** Two dead names among four lines. *)
Lemma removal_loop_on_plain_file_witness :
  remove_vars ["y"; "z"] (text ["x = 1"; "y = 2"; "z = 3"; "print(x)"])
  = (text ["x = 1"; "print(x)"], 2).
Proof.
  apply (removal_loop_on_plain_file ["y"; "z"]
           ["x = 1"; "y = 2"; "z = 3"; "print(x)"]).
  repeat constructor; discriminate.
Defined.

(** *** X5: the order of the set does not matter on a plain file *)

(** X5.  When the text read is plain for every unused name, two orders
    of iteration over the set of unused names give the same outcome and
    the same disk. *)
Theorem iteration_order_irrelevant h parse iter iter' ft filepath dk content
    ls tree :
  dk !! resolve h filepath = Some content →
  universal_newlines content = text ls →
  parse (text ls) = Parsed tree →
  iter (get_unused_variables (visit tree new_detector))
  ≡ₚ iter' (get_unused_variables (visit tree new_detector)) →
  all_plain (iter (get_unused_variables (visit tree new_detector))) ls →
  process_python_file h parse iter ft filepath dk
  = process_python_file h parse iter' ft filepath dk.
Proof.
  intros Hfile Hread Hparse Hperm Hall.
  unfold process_python_file. rewrite !try_except_run.
  destruct (decide (ft = ReadFault)) as [->|Hft];
    [by rewrite !python_body_unread by by left|].
  rewrite !(python_body_read _ _ _ _ _ _ content) by done.
  rewrite Hread, Hparse.
  assert (remove_vars (iter (get_unused_variables (visit tree new_detector)))
            (text ls)
          = remove_vars
              (iter' (get_unused_variables (visit tree new_detector)))
              (text ls)) as Hsame
    by (unfold remove_vars; by apply remove_loop_perm).
  by rewrite Hsame.
Qed.

(** The two dead names of a file, taken in either order. *)
Lemma iteration_order_irrelevant_witness :
  let content := text ["x = 1"; "y = 2"; "z = 3"; "print(x)"] in
  let tree := module [Assign 1 [Name "x" Store 1] leaf;
                      Assign 2 [Name "y" Store 2] leaf;
                      Assign 3 [Name "z" Store 3] leaf;
                      call_stmt "print" "x" 4] in
  process_python_file posix (parse_table [(content, tree)]) (λ _, ["y"; "z"])
    NoFault Files.path {[Files.path := content]}
  = process_python_file posix (parse_table [(content, tree)])
      (λ _, ["z"; "y"]) NoFault Files.path {[Files.path := content]}.
Proof.
  intros content tree.
  apply (iteration_order_irrelevant posix (parse_table [(content, tree)])
           (λ _, ["y"; "z"]) (λ _, ["z"; "y"]) NoFault Files.path
           {[Files.path := content]} content
           ["x = 1"; "y = 2"; "z = 3"; "print(x)"] tree).
  - vm_compute. exact eq_refl.
  - vm_compute. exact eq_refl.
  - vm_compute. exact eq_refl.
  - apply perm_swap.
  - repeat constructor; discriminate.
Defined.

(** *** X6: blank lines in front of a removed assignment *)

(** X6.  In a file that is otherwise plain, the blank lines that stand
    immediately in front of an assignment to the name are deleted with
    it, and the block counts for one removal. *)
Theorem blank_lines_go_with_assignment var before blanks decl rest count :
  identifier var = true →
  plain var before →
  Forall blank blanks →
  one_line decl = true →
  classify var decl = Removed →
  plain var rest →
  remove_var (text (before ++ blanks ++ decl :: rest), count) var
  = (text (kept_lines var before ++ kept_lines var rest),
     count + (length (removed_lines var before)
              + S (length (removed_lines var rest)))).
Proof.
  intros Hvar Hbefore Hblanks Hdecl Hk Hrest.
  assert (text (before ++ blanks ++ decl :: rest)
          = text before
            +:+ ((text blanks +:+ decl) +:+ String nl (text rest))) as ->.
  { rewrite !text_app. cbn [text]. by rewrite !append_assoc. }
  assert (text blanks +:+ decl ≠ "") as Hne.
  { intros Hempty. apply (f_equal String.length) in Hempty.
    rewrite length_append in Hempty.
    destruct decl; [done|simpl in Hempty; lia]. }
  assert (∀ prev, at_bol (last_char prev (text blanks +:+ decl)) = false)
    as Hlast'.
  { intros prev. rewrite last_char_append. destruct decl as [|c decl]; [done|].
    cbn [last_char]. apply last_char_line;
      [by eapply one_line_tail|by eapply one_line_head]. }
  assert (∀ prev pos, at_bol prev = true →
            length (scan (assign_pattern var) prev
                      ((text blanks +:+ decl) +:+ String nl (text rest)) 0 pos)
            = S (length (removed_lines var rest))) as Hblock.
  { intros prev pos Hp.
    change (assign_pattern var) with (ABol :: tl (assign_pattern var)).
    rewrite (scan_whole_match _ _ _ _ []); [|done|done|].
    - f_equal.
      change (ABol :: tl (assign_pattern var)) with (assign_pattern var).
      by apply count_text.
    - change (ABol :: tl (assign_pattern var)) with (assign_pattern var).
      rewrite <- (app_nil_r (assign_pattern var)).
      by apply match_block. }
  pose proof (count_text_app var Hvar before _ _ Hbefore Hblock None 0 eq_refl)
    as Hcount.
  rewrite <- (length_fmap m_text) in Hcount.
  unfold remove_var, findall, finditer, sub.
  rewrite (sub_text_app var Hvar before _ (text (kept_lines var rest)) Hbefore);
    [| |done].
  - destruct (m_text <$> scan (assign_pattern var) None _ 0 0) as [|m ms] eqn:E.
    + simpl in Hcount. lia.
    + by rewrite text_app, Hcount.
  - intros prev Hp.
    rewrite (sub_whole_match _ _ _ _ []); [by apply sub_text|done|].
    by apply match_block.
Qed.

(** Two blank lines between a kept line and a dead assignment. *)
Lemma blank_lines_go_with_assignment_witness :
  remove_var (text ["x = 1"; ""; "  "; "y = 2"; "print(x)"], 0) "y"
  = (text ["x = 1"; "print(x)"], 1).
Proof.
  apply (blank_lines_go_with_assignment "y" ["x = 1"] [""; "  "] "y = 2"
           ["print(x)"] 0).
  - reflexivity.
  - repeat constructor; discriminate.
  - repeat constructor.
  - reflexivity.
  - reflexivity.
  - repeat constructor; discriminate.
Defined.

(** *** X7: the second loop of [main] *)

(** X7.  No name that the pattern of the second loop matches has one of
    the four suffixes the loop asks for: on the files [rglob] gives it,
    the second loop calls [process_javascript_file] on none, and [main]
    does what it does when the second loop is given no file at all. *)
Theorem second_loop_never_runs h parse iter fault_at py_files js_files dk :
  Forall (λ p, glob_match js_glob (name p) = true) js_files →
  js_swept js_files = []
  ∧ main h parse iter fault_at py_files js_files dk
    = main h parse iter fault_at py_files [] dk.
Proof.
  intros Hglob. split.
  - unfold js_swept. induction Hglob as [|p ps Hp _ IH]; [done|].
    rewrite filter_cons, decide_False; [done|].
    intros [_ Hsuf]. by apply (js_glob_suffix p).
  - rewrite !main_run.
    destruct (first_loop h parse iter fault_at py_files dk) as [[e|acc] dk1];
      [done|].
    unfold second_loop. rewrite !print_then.
    by rewrite js_loop_idle.
Qed.

(** A script file named [view.jsxa] is matched and passed over. *)
Lemma second_loop_never_runs_witness :
  js_swept ws_js = []
  ∧ main posix ws_parse elements (λ _, NoFault) ws_py ws_js ws_disk
    = main posix ws_parse elements (λ _, NoFault) ws_py [] ws_disk.
Proof.
  apply (second_loop_never_runs posix ws_parse elements (λ _, NoFault)
           ws_py ws_js ws_disk).
  repeat constructor.
Defined.

(** *** X8: when [main] completes, and its counters *)



(** *** X9: what [main] can change *)


(** *** X10: a sweep that reports nothing *)

(** X10.  When [main] reports no removal and no error, it has counted no
    file and the disk is as it was. *)
Theorem quiet_sweep_changes_nothing h parse iter fault_at py_files js_files dk
    s dk' :
  main h parse iter fault_at py_files js_files dk = (inr s, dk') →
  total_removed s = 0 →
  total_errors s = 0 →
  dk' = dk ∧ py_count s = 0 ∧ js_count s = 0.
Proof.
  intros Hmain Hr He.
  destruct (main_spec h parse iter fault_at py_files js_files dk)
    as (res & dk'' & Hmain' & _ & Hcount & _).
  rewrite Hmain in Hmain'. injection Hmain' as <- <-.
  destruct (Hcount s eq_refl) as (s1 & dk1 & Hpy & Hjs0 & Hjs & Hsame).
  destruct Hpy as (P1 & P2 & P3 & _ & _ & _ & P7).
  destruct Hjs as (J1 & J2 & J3 & _ & _ & _ & J7).
  simpl in *.
  destruct J7 as [-> Hj]; [lia|lia|].
  destruct P7 as [-> Hp]; [lia|lia|].
  split_and!; [done|lia|lia].
Qed.

(** A workspace whose only script has nothing dead. *)
Lemma quiet_sweep_changes_nothing_witness :
  ({[ "/ws/app.py" := scenario_a ]} : disk) = {[ "/ws/app.py" := scenario_a ]}
  ∧ py_count (Summary 0 0 0 0) = 0 ∧ js_count (Summary 0 0 0 0) = 0.
Proof.
  apply (quiet_sweep_changes_nothing posix
           (parse_table [(scenario_a, scenario_a_tree)]) elements
           (λ _, NoFault) [["/"; "ws"; "app.py"]] []
           {[ "/ws/app.py" := scenario_a ]} (Summary 0 0 0 0)
           {[ "/ws/app.py" := scenario_a ]}).
  - vm_compute. exact eq_refl.
  - reflexivity.
  - reflexivity.
Defined.

(** *** X11: a declaration is cut at its first semicolon *)

(** X11.  A file opens with a declaration [indent kw name = init;], where
    [init] holds no semicolon, followed by the rest [t] of the line, and
    the name is written once in the file.  Then the declaration is
    deleted up to that semicolon and counted once; the line end goes with
    it only when it follows the semicolon at once, and otherwise [t] and
    the line end stay as the new content. *)
Theorem declaration_cut_at_first_semicolon
    indent kw sp1 name sp2 sp3 init t :
  declares indent kw sp1 name sp2 sp3 init →
  one_line t = true →
  length (findall (usage_pattern name)
            (declaration indent kw sp1 name sp2 sp3 init
             +:+ t +:+ String nl "")) = 1 →
  remove_decls
    (declaration indent kw sp1 name sp2 sp3 init +:+ t +:+ String nl "")
  = (after_newline (t +:+ String nl ""), 1).
Proof.
  intros Hd Ht Hu.
  destruct (one_declaration indent kw sp1 name sp2 sp3 init t Hd Ht)
    as (m & Hf & H0 & H3).
  unfold remove_decls. rewrite Hf. cbn [fold_left remove_decl].
  rewrite H3, Hu, H0. cbn [Nat.eqb Nat.add].
  rewrite sub_first_at_start; [done|apply declaration_nonempty].
Qed.

(** An arrow function with a statement in its body: the closing brace is
    left behind. *)
Lemma declaration_cut_at_first_semicolon_witness :
  remove_decls
    (declaration "" "const" " " "f" " " " " "() => { return 1"
     +:+ " };" +:+ String nl "")
  = (after_newline (" };" +:+ String nl ""), 1).
Proof.
  apply (declaration_cut_at_first_semicolon
           "" "const" " " "f" " " " " "() => { return 1" " };").
  - unfold declares, spaces. split_and!; try done. constructor.
  - reflexivity.
  - vm_compute. reflexivity.
Defined.

(** *** X12: a rewrite that is reported as an error *)

(** X12.  The message of a removal is printed after the file has been
    written, inside the [try].  When that [print] raises and the message
    of the handler is then printed, the call returns (0, 1), no removal
    and one error, although the file has been rewritten with the
    removals made. *)
Theorem rewrite_reported_as_error h parse iter filepath dk content e :
  dk !! resolve h filepath = Some content →
  (∀ tree modified count,
     parse (universal_newlines content) = Parsed tree →
     deep h tree = false →
     get_unused_variables (visit tree new_detector) ≠ ∅ →
     remove_vars (iter (get_unused_variables (visit tree new_detector)))
       (universal_newlines content)
     = (modified, count) →
     0 < count →
     stdout h (MsgRemoved count filepath) = Some e →
     stdout h (MsgError filepath e) = None →
     process_python_file h parse iter NoFault filepath dk
     = (inr (0, 1),
        <[resolve h filepath := os_newlines (linesep h) modified]> dk))
  ∧ (∀ modified count,
       remove_decls (universal_newlines content) = (modified, count) →
       0 < count →
       stdout h (MsgRemoved count filepath) = Some e →
       stdout h (MsgError filepath e) = None →
       process_javascript_file h NoFault filepath dk
       = (inr (0, 1),
          <[resolve h filepath := os_newlines (linesep h) modified]> dk)).
Proof.
  intros Hfile. split.
  - intros tree modified count Hparse Hdeep Hsome Hloop Hcount Hraise Hprint.
    apply Nat.ltb_lt in Hcount. unfold process_python_file.
    rewrite try_except_run, (python_body_read _ _ _ _ _ _ content) by done.
    rewrite Hparse, Hdeep, decide_False by done. rewrite Hloop, Hcount.
    unfold print_return. by rewrite Hraise, Hprint.
  - intros modified count Hloop Hcount Hraise Hprint.
    apply Nat.ltb_lt in Hcount. unfold process_javascript_file.
    rewrite try_except_run, (javascript_body_read _ _ _ _ content) by done.
    rewrite Hloop, Hcount.
    unfold print_return. by rewrite Hraise, Hprint.
Qed.

(** Scenario B on a host whose first [print] raises: the line of [y] is
    gone from the file, and the call reports (0, 1). *)
Lemma rewrite_reported_as_error_witness :
  process_python_file busy_pipe (parse_table [(scenario_b, scenario_b_tree)])
    elements NoFault Files.path {[Files.path := scenario_b]}
  = (inr (0, 1), <[Files.path := scenario_b_out]> {[Files.path := scenario_b]}).
Proof.
  refine (proj1 (rewrite_reported_as_error busy_pipe
                   (parse_table [(scenario_b, scenario_b_tree)]) elements
                   Files.path {[Files.path := scenario_b]} scenario_b OSError
                   _)
            scenario_b_tree scenario_b_out 1 _ _ _ _ _ _ _).
  - vm_compute. exact eq_refl.
  - vm_compute. exact eq_refl.
  - reflexivity.
  - apply (bool_decide_unpack _). vm_compute. exact I.
  - vm_compute. exact eq_refl.
  - lia.
  - reflexivity.
  - reflexivity.
Defined.

(** *** X13: a rewrite sets the line ends *)

(** X13.  A file that a call rewrites gets the line ends of the
    platform, whatever it had: on a host whose line separator is the
    line feed, a file in which something was removed holds no carriage
    return afterwards, also where a line that was kept ended in CR LF. *)
Theorem rewrite_sets_line_ends h parse iter ft filepath dk removed dk' :
  linesep h = LF →
  0 < removed →
  process_python_file h parse iter ft filepath dk = (inr (removed, 0), dk')
  ∨ process_javascript_file h ft filepath dk = (inr (removed, 0), dk') →
  ∃ after, dk' !! resolve h filepath = Some after ∧ cr ∉ chars after.
Proof.
  intros Hsep Hremoved Hrun.
  assert (∃ content modified,
            sublist (chars modified) (chars (universal_newlines content))
            ∧ dk' = <[resolve h filepath :=
                        os_newlines (linesep h) modified]> dk)
    as (content & modified & Hsub & ->).
  { destruct Hrun as [Hrun|Hrun].
    - destruct (python_call h parse iter ft filepath dk)
        as (res & dk1 & Hcall & _ & _ & _ & _ & _ & Hret).
      rewrite Hrun in Hcall. injection Hcall as <- <-.
      destruct (Hret removed 0 eq_refl) as [_ Hok].
      destruct (Hok eq_refl)
        as [[-> _]|[_ (content & modified & _ & (tree & _ & Hloop) & ->)]];
        [lia|].
      exists content, modified. split; [|done].
      pose proof (remove_vars_sublist
                    (iter (get_unused_variables (visit tree new_detector)))
                    (universal_newlines content)) as Hsub.
      by rewrite Hloop in Hsub.
    - destruct (javascript_call h ft filepath dk)
        as (res & dk1 & Hcall & _ & _ & _ & _ & _ & Hret).
      rewrite Hrun in Hcall. injection Hcall as <- <-.
      destruct (Hret removed 0 eq_refl) as [_ Hok].
      destruct (Hok eq_refl)
        as [[-> _]|[_ (content & modified & _ & Hloop & ->)]]; [lia|].
      exists content, modified. split; [|done].
      pose proof (remove_decls_sublist (universal_newlines content)) as Hsub.
      by rewrite Hloop in Hsub. }
  exists modified. rewrite Hsep, os_newlines_lf, lookup_insert_eq.
  split; [done|]. intros Hin.
  eapply translate_in_no_cr, elem_of_sublist; done.
Qed.

(** Scenario B with the line ends of Windows, rewritten on a POSIX host:
    the two lines that are kept end in a line feed alone. *)
Lemma rewrite_sets_line_ends_witness :
  ∃ after,
    ({[Files.path := scenario_b_out]} : disk) !! resolve posix Files.path
    = Some after
    ∧ cr ∉ chars after.
Proof.
  refine (rewrite_sets_line_ends posix
            (parse_table [(scenario_b, scenario_b_tree)]) elements NoFault
            Files.path {[Files.path := scenario_b_crlf]} 1
            {[Files.path := scenario_b_out]} eq_refl _ _).
  - lia.
  - left. vm_compute. exact eq_refl.
Defined.

End Extras.
